(** * gym: reinforcement-learning environments (CartPole, BallPush, Walker)

    A shallow embedding of the simulation kernels of the Go package [gym]
    (verlet.go, env_cartpole.go, env_ballpush.go, env_walker.go and the
    shared helpers [validateAction] and [clampAll]).

    Numbers.  The Go code computes on [float64].  The embedding reads every
    [float64] as a real number: [+], [-], [*], [/] are the exact field
    operations, [math.Abs] is [Rabs], [math.Sin]/[math.Cos] are [sin]/[cos],
    [math.Hypot x y] is [sqrt (x*x + y*y)], and the comparisons [<], [>],
    [==] are the order and equality of [R].  Rounding, infinities and NaN
    are outside the model; statements that would depend on the value of a
    division by zero carry the hypothesis that the divisor is not zero.

    Panics.  A Go [panic] is the [Panic] constructor of [result]; a call
    that returns normally is [Ok].

    Random source.  [rand.Float64()] draws are explicit arguments of the
    [Reset] functions, each one a real number of [[0, 1)]. *)

From Stdlib Require Import Reals Lra List String Bool Lia.
Import ListNotations.
Open Scope R_scope.

(** ** Comparisons of the source as booleans *)

Definition Rltb (x y : R) : bool := if Rlt_dec x y then true else false.
Definition Rgtb (x y : R) : bool := Rltb y x.
Definition Reqb (x y : R) : bool := if Req_dec_T x y then true else false.

(** ** Panics *)

Inductive result (A : Type) : Type :=
| Ok (a : A)
| Panic (msg : string).
Arguments Ok {A} a.
Arguments Panic {A} msg.

Definition bind {A B : Type} (r : result A) (k : A -> result B) : result B :=
  match r with
  | Ok a => k a
  | Panic msg => Panic msg
  end.

Notation "'do' x <- r ; k" := (bind r (fun x => k))
  (at level 10, x name, r at level 100, k at level 200).

Definition is_ok {A : Type} (r : result A) : bool :=
  match r with Ok _ => true | Panic _ => false end.

(** ** pixel.Vec

    The two-dimensional vector of github.com/gopxl/pixel, with the
    operations the environments call.  [Unit] returns [(1, 0)] on the zero
    vector, as the library does; no theorem below rests on that branch. *)

Record Vec : Type := V { X : R; Y : R }.

Definition ZV : Vec := V 0 0.
Definition Add (u v : Vec) : Vec := V (X u + X v) (Y u + Y v).
Definition Sub (u v : Vec) : Vec := V (X u - X v) (Y u - Y v).
Definition Scaled (u : Vec) (c : R) : Vec := V (X u * c) (Y u * c).
Definition Len (u : Vec) : R := sqrt (X u * X u + Y u * Y u).
Definition Unit (u : Vec) : Vec :=
  if Reqb (X u) 0 && Reqb (Y u) 0 then V 1 0 else Scaled u (1 / Len u).
Definition Dot (u v : Vec) : R := X u * X v + Y u * Y v.
Definition Rotated (u : Vec) (angle : R) : Vec :=
  V (X u * cos angle - Y u * sin angle) (X u * sin angle + Y u * cos angle).

(** ** verlet.go *)

Record VerletParticle : Type := mkVerletParticle {
  currentPosition : Vec;
  previousPosition : Vec;
  mass : R;
  currentForce : Vec;
  currentImpulse : Vec;
  recentVelocity : Vec;
  recentAcceleration : Vec;
  dt : R
}.

Definition NewVerletParticle (position : Vec) (mass dt : R) : VerletParticle :=
  {| currentPosition := position;
     previousPosition := position;
     mass := mass;
     currentForce := ZV;
     currentImpulse := ZV;
     recentVelocity := ZV;
     recentAcceleration := ZV;
     dt := dt |}.

Definition Position (p : VerletParticle) : Vec := currentPosition p.
Definition Velocity (p : VerletParticle) : Vec := recentVelocity p.
Definition Acceleration (p : VerletParticle) : Vec := recentAcceleration p.
Definition Mass (p : VerletParticle) : R := mass p.

Definition ApplyForce (p : VerletParticle) (force : Vec) : VerletParticle :=
  {| currentPosition := currentPosition p;
     previousPosition := previousPosition p;
     mass := mass p;
     currentForce := Add (currentForce p) force;
     currentImpulse := currentImpulse p;
     recentVelocity := recentVelocity p;
     recentAcceleration := recentAcceleration p;
     dt := dt p |}.

Definition ApplyImpulse (p : VerletParticle) (impulse : Vec) : VerletParticle :=
  {| currentPosition := currentPosition p;
     previousPosition := previousPosition p;
     mass := mass p;
     currentForce := currentForce p;
     currentImpulse := Add (currentImpulse p) impulse;
     recentVelocity := recentVelocity p;
     recentAcceleration := recentAcceleration p;
     dt := dt p |}.

Definition SlideToPosition (p : VerletParticle) (newPos : Vec) : VerletParticle :=
  {| currentPosition := newPos;
     previousPosition := previousPosition p;
     mass := mass p;
     currentForce := currentForce p;
     currentImpulse := currentImpulse p;
     recentVelocity := recentVelocity p;
     recentAcceleration := recentAcceleration p;
     dt := dt p |}.

Definition SetVelocity (p : VerletParticle) (vel : Vec) : VerletParticle :=
  {| currentPosition := currentPosition p;
     previousPosition := Sub (currentPosition p) (Scaled vel (dt p));
     mass := mass p;
     currentForce := currentForce p;
     currentImpulse := currentImpulse p;
     recentVelocity := recentVelocity p;
     recentAcceleration := recentAcceleration p;
     dt := dt p |}.

Definition StepParticle (p : VerletParticle) : VerletParticle :=
  let totalForce := Add (currentForce p) (Scaled (currentImpulse p) (1 / dt p)) in
  let acceleration := Scaled totalForce (1 / mass p) in
  let nextPosition :=
    Add (Sub (Scaled (currentPosition p) 2) (previousPosition p))
        (Scaled acceleration (dt p * dt p)) in
  {| currentPosition := nextPosition;
     previousPosition := currentPosition p;
     mass := mass p;
     currentForce := ZV;
     currentImpulse := ZV;
     recentVelocity := Scaled (Sub nextPosition (previousPosition p)) (0.5 / dt p);
     recentAcceleration := acceleration;
     dt := dt p |}.

(** [n] consecutive [StepParticle] calls with nothing in between. *)
Fixpoint StepParticleN (n : nat) (p : VerletParticle) : VerletParticle :=
  match n with
  | O => p
  | S k => StepParticle (StepParticleN k p)
  end.

(** The calls a client can make on a particle between two [StepParticle]
    calls. *)
Inductive ParticleCall : Type :=
| CallApplyForce (force : Vec)
| CallApplyImpulse (impulse : Vec)
| CallSlideToPosition (newPos : Vec)
| CallSetVelocity (vel : Vec).

Definition applyCall (p : VerletParticle) (c : ParticleCall) : VerletParticle :=
  match c with
  | CallApplyForce force => ApplyForce p force
  | CallApplyImpulse impulse => ApplyImpulse p impulse
  | CallSlideToPosition newPos => SlideToPosition p newPos
  | CallSetVelocity vel => SetVelocity p vel
  end.

Definition applyCalls (p : VerletParticle) (cs : list ParticleCall) : VerletParticle :=
  fold_left applyCall cs p.

(** ** env.go *)

(** The debug mapping of [StepData] and [ResetData]; every environment
    returns it empty. *)
Definition InfoMap : Type := list (string * R).

Record StepData : Type := mkStepData {
  Observation : list R;
  Reward : R;
  Terminated : bool;
  Info : InfoMap
}.

Record ResetData : Type := mkResetData {
  ResetObservation : list R;
  ResetInfo : InfoMap
}.

(** ** Shared helpers (validateAction, clampAll) *)

(** [action[i]] on a Go slice: a run-time panic when [i] is out of range. *)
Definition index (action : list R) (i : nat) : result R :=
  match nth_error action i with
  | Some v => Ok v
  | None => Panic "runtime error: index out of range"
  end.

(** The [for _, v := range action] loop of [validateAction]. *)
Fixpoint validateRange (action : list R) : result unit :=
  match action with
  | [] => Ok tt
  | v :: rest =>
      if Rltb v (-1) || Rgtb v 1
      then Panic "Invalid action: out of range -1 to 1"
      else validateRange rest
  end.

Definition validateAction (action : list R) (targetLength : Z) : result unit :=
  if negb (Z.of_nat (List.length action) =? targetLength)%Z
  then Panic "Invalid action: length mismatch"
  else validateRange action.

(** The body of the loop of [clampAll] at one index. *)
Definition clampOne (val : R) : R :=
  let clamped := val in
  let clamped := if Rltb clamped (-1) then -1 else clamped in
  let clamped := if Rgtb clamped 1 then 1 else clamped in
  clamped.

Definition clampAll (vals : list R) : list R := map clampOne vals.

Definition decay (x : R) : R :=
  if Rltb x 0 then
    let x := - x in
    - ((-1 / (x + 1)) + 1)
  else (-1 / (x + 1)) + 1.

(** [math.Round]: the nearest integer, halves rounded away from zero. *)
Definition mathRound (x : R) : Z :=
  if Rltb x 0 then (- Int_part (- x + 1 / 2))%Z else Int_part (x + 1 / 2).

(** The conversion [int(x)] of an integer-valued [float64] to the 64-bit
    [int]: the value itself when it fits; otherwise Go leaves the result to
    the implementation, and [overflow] stands for what it returns. *)
Definition intOfFloat (overflow : Z) (z : Z) : Z :=
  if ((- 2 ^ 63 <=? z) && (z <? 2 ^ 63))%Z then z else overflow.

(** [norm]: the [rand.NormFloat64()] draw; [overflow]: see [intOfFloat]. *)
Definition normInt (overflow : Z) (std : R) (norm : R) : Z :=
  let rawRand := norm * std in
  let rawRand := if Rltb rawRand 0 then - rawRand else rawRand in
  intOfFloat overflow (mathRound rawRand).

(** ** env_cartpole.go *)

Module CartPole.

Record CartPoleSettings : Type := mkCartPoleSettings {
  Acceleration : R;
  MaxVelocity : R;
  MaxRotationalVelocity : R;
  GravityAcceleration : R;
  TorqueMultiplier : R;
  TimeStep : R;
  MaxInitialAngle : R;
  MaxInitialOffset : R;
  FailAngle : R;
  CenteredPerStepReward : R;
  OutOfBoundsReward : R;
  PoleFallReward : R
}.

Definition DefaultCartPoleSettings : CartPoleSettings :=
  {| Acceleration := 0.5;
     MaxVelocity := 1.5;
     MaxRotationalVelocity := PI * 3;
     GravityAcceleration := 9.8;
     TorqueMultiplier := 4.0;
     TimeStep := 1.0 / 60.0;
     MaxInitialAngle := PI / 8;
     MaxInitialOffset := 0.8;
     FailAngle := PI / 2;
     CenteredPerStepReward := 1.0;
     OutOfBoundsReward := -1.0;
     PoleFallReward := -5.0 |}.

Record CartPoleEnv : Type := mkCartPoleEnv {
  BoxPosition : R;
  BoxVelocity : R;
  PoleRotation : R;
  PoleRotationalVelocity : R;
  Settings : CartPoleSettings
}.

(** Go leaves the four state fields at their zero value. *)
Definition NewCartPoleEnv (settings : CartPoleSettings) : CartPoleEnv :=
  {| BoxPosition := 0;
     BoxVelocity := 0;
     PoleRotation := 0;
     PoleRotationalVelocity := 0;
     Settings := settings |}.

Definition ActionLength (e : CartPoleEnv) : Z := 1%Z.

Definition getObservation (e : CartPoleEnv) : list R :=
  clampAll
    [ BoxPosition e;
      BoxVelocity e / MaxVelocity (Settings e);
      PoleRotation e / 180.0;
      PoleRotationalVelocity e / MaxRotationalVelocity (Settings e) ].

Definition getInfo (e : CartPoleEnv) : InfoMap := [].

Definition ObservationLength (e : CartPoleEnv) : Z :=
  Z.of_nat (List.length (getObservation e)).

Definition NumCategoricalActions (e : CartPoleEnv) : Z := 3%Z.

Definition ConvertCategoricalAction (e : CartPoleEnv) (action : Z) : result (list R) :=
  match action with
  | 0%Z => Ok [0.0]
  | 1%Z => Ok [1.0]
  | 2%Z => Ok [-1.0]
  | _ => Panic "Invalid action"
  end.

(** The state update of [Step] (lines 89-110): the physics, on an action
    component that passed validation. *)
Definition stepPhysics (e : CartPoleEnv) (forceAction : R) : CartPoleEnv :=
  let s := Settings e in
  let boxVelocity := BoxVelocity e + forceAction * Acceleration s * TimeStep s in
  let boxVelocity :=
    if Rgtb boxVelocity (MaxVelocity s) then MaxVelocity s
    else if Rltb boxVelocity (- MaxVelocity s) then - MaxVelocity s
    else boxVelocity in
  let boxPosition := BoxPosition e + boxVelocity * TimeStep s in
  let poleGravityAcceleration := GravityAcceleration s * sin (PoleRotation e) in
  let poleTorque := forceAction * cos (PoleRotation e) * TorqueMultiplier s in
  let poleRotationalVelocity :=
    PoleRotationalVelocity e + (poleGravityAcceleration + poleTorque) * TimeStep s in
  let poleRotationalVelocity :=
    if Rgtb poleRotationalVelocity (MaxRotationalVelocity s) then MaxRotationalVelocity s
    else if Rltb poleRotationalVelocity (- MaxRotationalVelocity s)
         then - MaxRotationalVelocity s
    else poleRotationalVelocity in
  let poleRotation := PoleRotation e + poleRotationalVelocity * TimeStep s in
  {| BoxPosition := boxPosition;
     BoxVelocity := boxVelocity;
     PoleRotation := poleRotation;
     PoleRotationalVelocity := poleRotationalVelocity;
     Settings := s |}.

(** The failure check and reward of [Step] (lines 112-121), on the state
    after the physics: the pair [(failed, reward)]. *)
Definition stepOutcome (e : CartPoleEnv) : bool * R :=
  let s := Settings e in
  let failed := false in
  let reward := CenteredPerStepReward s * 1 - Rabs (BoxPosition e) in
  if Rgtb (BoxPosition e) 1.0 || Rltb (BoxPosition e) (-1.0) then
    (true, OutOfBoundsReward s)
  else if Rgtb (PoleRotation e) (FailAngle s) || Rltb (PoleRotation e) (- FailAngle s) then
    (true, PoleFallReward s)
  else (failed, reward).

Definition Step (e : CartPoleEnv) (action : list R) : result (CartPoleEnv * StepData) :=
  do _ <- validateAction action (ActionLength e);
  do forceAction <- index action 0;
  let e' := stepPhysics e forceAction in
  let '(failed, reward) := stepOutcome e' in
  Ok (e', {| Observation := getObservation e';
             Reward := reward;
             Terminated := failed;
             Info := getInfo e' |}).

(** [rand1], [rand2]: the two [rand.Float64()] draws, in call order. *)
Definition Reset (e : CartPoleEnv) (rand1 rand2 : R) : CartPoleEnv * ResetData :=
  let s := Settings e in
  let e' :=
    {| BoxPosition := (rand1 * 2 - 1) * MaxInitialOffset s;
       BoxVelocity := 0.0;
       PoleRotation := (rand2 * 2 - 1) * MaxInitialAngle s;
       PoleRotationalVelocity := 0.0;
       Settings := s |} in
  (e', {| ResetObservation := getObservation e'; ResetInfo := getInfo e' |}).

(** A driver that calls [Step] once per action and keeps every returned
    [StepData] together with the state it left behind. *)
Fixpoint Run (e : CartPoleEnv) (actions : list (list R))
  : result (list (CartPoleEnv * StepData)) :=
  match actions with
  | [] => Ok []
  | action :: rest =>
      do r <- Step e action;
      do rs <- Run (fst r) rest;
      Ok (r :: rs)
  end.

End CartPole.

(** ** env_ballpush.go *)

Module BallPush.

Record BallPushSettings : Type := mkBallPushSettings {
  BallRadius : R;
  AgentRadius : R;
  AgentAcceleration : R;
  AgentDrag : R;
  BallDrag : R;
  BoundaryRadius : R;
  MoveToBallReward : R;
  TouchBallReward : R;
  MoveToCenterReward : R;
  PlaceInCenterReward : R;
  TargetRadius : R;
  Scale : R;
  DeltaTime : R
}.

Definition DefaultBallPushSettings : BallPushSettings :=
  {| BallRadius := 2;
     AgentRadius := 1;
     AgentAcceleration := 20;
     AgentDrag := 1.5;
     BallDrag := 0.75;
     BoundaryRadius := 50;
     MoveToBallReward := 0.5;
     TouchBallReward := 1;
     MoveToCenterReward := 1;
     PlaceInCenterReward := 2;
     Scale := 10;
     TargetRadius := 3;
     DeltaTime := 1.0 / 60.0 |}.

Definition AgentMaxSpeed (b : BallPushSettings) : R :=
  AgentAcceleration b / AgentDrag b.

(** [Agent] and [Ball] are two distinct particles, each allocated by
    [NewBallPushEnv] and referenced from this environment only. *)
Record BallPushEnv : Type := mkBallPushEnv {
  Agent : VerletParticle;
  Ball : VerletParticle;
  HasTouchedBall : bool;
  HasCenteredBall : bool;
  Settings : BallPushSettings
}.

Definition BallInCenter (b : BallPushEnv) : bool :=
  Rltb (Len (Position (Ball b))) (TargetRadius (Settings b) - BallRadius (Settings b)).

Definition ActionLength (e : BallPushEnv) : Z := 2%Z.

Definition NumCategoricalActions (e : BallPushEnv) : Z := 5%Z.

Definition ConvertCategoricalAction (e : BallPushEnv) (a : Z) : result (list R) :=
  match a with
  | 0%Z => Ok [1; 0]
  | 1%Z => Ok [-1; 0]
  | 2%Z => Ok [0; 1]
  | 3%Z => Ok [0; -1]
  | 4%Z => Ok [0; 0]
  | _ => Panic "invalid action"
  end.

Definition getObservation (b : BallPushEnv) : list R :=
  let s := Settings b in
  [ X (Position (Agent b)) / BoundaryRadius s;
    Y (Position (Agent b)) / BoundaryRadius s;
    X (Sub (Position (Ball b)) (Position (Agent b))) / (2 * BoundaryRadius s);
    Y (Sub (Position (Ball b)) (Position (Agent b))) / (2 * BoundaryRadius s);
    X (Velocity (Agent b)) / AgentMaxSpeed s;
    Y (Velocity (Agent b)) / AgentMaxSpeed s;
    X (Velocity (Ball b)) / AgentMaxSpeed s;
    Y (Velocity (Ball b)) / AgentMaxSpeed s ].

Definition getInfo (b : BallPushEnv) : InfoMap := [].

Definition ObservationLength (e : BallPushEnv) : Z :=
  Z.of_nat (List.length (getObservation e)).

(** [randR1], [randA1], [randR2], [randA2]: the four [rand.Float64()]
    draws, in call order (agent radius, agent angle, ball radius, ball
    angle). *)
Definition Reset (b : BallPushEnv) (randR1 randA1 randR2 randA2 : R)
  : BallPushEnv * ResetData :=
  let s := Settings b in
  let agent :=
    SlideToPosition (Agent b)
      (Rotated (V 0 (randR1 * BoundaryRadius s * 0.75)) (randA1 * 2 * PI)) in
  let agent := SetVelocity agent ZV in
  let ball :=
    SlideToPosition (Ball b)
      (Rotated (V 0 (randR2 * BoundaryRadius s * 0.75)) (randA2 * 2 * PI)) in
  let ball := SetVelocity ball ZV in
  let b' :=
    {| Agent := agent;
       Ball := ball;
       HasTouchedBall := false;
       HasCenteredBall := false;
       Settings := s |} in
  (b', {| ResetObservation := getObservation b'; ResetInfo := [] |}).

Definition NewBallPushEnv (settings : BallPushSettings)
  (randR1 randA1 randR2 randA2 : R) : BallPushEnv :=
  let e :=
    {| Agent := NewVerletParticle ZV 1 (DeltaTime settings);
       Ball := NewVerletParticle ZV 1 (DeltaTime settings);
       HasTouchedBall := false;
       HasCenteredBall := false;
       Settings := settings |} in
  fst (Reset e randR1 randA1 randR2 randA2).

(** *** The stages of [Step], in source order *)

(** Lines 159-162: the control vector built from the action. *)
Definition controlVecOf (a0 a1 : R) : Vec :=
  let controlVec := V a0 a1 in
  if Rgtb (Len controlVec) 0 then Unit controlVec else controlVec.

(** Line 164. *)
Definition agentControlForceOf (s : BallPushSettings) (a0 a1 : R) : Vec :=
  Scaled (controlVecOf a0 a1) (AgentAcceleration s).

(** Lines 164-169: control and drag forces accumulated on the particles. *)
Definition applyForces (e : BallPushEnv) (a0 a1 : R) : BallPushEnv :=
  let s := Settings e in
  let agentControlForce := agentControlForceOf s a0 a1 in
  let agentDragForce := Scaled (Velocity (Agent e)) (AgentDrag s) in
  let agent := ApplyForce (Agent e) (Sub agentControlForce agentDragForce) in
  let ballDragForce := Scaled (Velocity (Ball e)) (BallDrag s) in
  let ball := ApplyForce (Ball e) (Scaled ballDragForce (-1)) in
  {| Agent := agent;
     Ball := ball;
     HasTouchedBall := HasTouchedBall e;
     HasCenteredBall := HasCenteredBall e;
     Settings := s |}.

(** Lines 171-174: the agent against the boundary. *)
Definition containAgent (e : BallPushEnv) : BallPushEnv :=
  let s := Settings e in
  let boundaryOverlap :=
    Len (Position (Agent e)) + AgentRadius s - BoundaryRadius s in
  if Rgtb boundaryOverlap 0 then
    {| Agent :=
         SlideToPosition (Agent e)
           (Scaled (Unit (Position (Agent e))) (BoundaryRadius s - AgentRadius s));
       Ball := Ball e;
       HasTouchedBall := HasTouchedBall e;
       HasCenteredBall := HasCenteredBall e;
       Settings := s |}
  else e.

(** Line 176. *)
Definition ballOverlapOf (e : BallPushEnv) : R :=
  (AgentRadius (Settings e) + BallRadius (Settings e))
  - Len (Sub (Position (Agent e)) (Position (Ball e))).

(** Lines 176-185: the agent against the ball; the second component is the
    local [justTouchedBall]. *)
Definition resolveCollision (e : BallPushEnv) : BallPushEnv * bool :=
  let s := Settings e in
  let ballOverlap := ballOverlapOf e in
  if Rgtb ballOverlap 0 then
    let justTouchedBall := if negb (HasTouchedBall e) then true else false in
    let hasTouchedBall := if negb (HasTouchedBall e) then true else HasTouchedBall e in
    let correctionVec :=
      Scaled (Unit (Sub (Position (Agent e)) (Position (Ball e)))) (ballOverlap / 2) in
    ({| Agent := SlideToPosition (Agent e) (Add (Position (Agent e)) correctionVec);
        Ball := SlideToPosition (Ball e) (Sub (Position (Ball e)) correctionVec);
        HasTouchedBall := hasTouchedBall;
        HasCenteredBall := HasCenteredBall e;
        Settings := s |}, justTouchedBall)
  else (e, false).

(** Lines 187-190: the ball against the boundary. *)
Definition containBall (e : BallPushEnv) : BallPushEnv :=
  let s := Settings e in
  let ballBoundaryOverlap :=
    Len (Position (Ball e)) + BallRadius s - BoundaryRadius s in
  if Rgtb ballBoundaryOverlap 0 then
    {| Agent := Agent e;
       Ball :=
         SlideToPosition (Ball e)
           (Scaled (Unit (Position (Ball e))) (BoundaryRadius s - BallRadius s));
       HasTouchedBall := HasTouchedBall e;
       HasCenteredBall := HasCenteredBall e;
       Settings := s |}
  else e.

(** Lines 192-196: the second component is the local [justCenteredBall]. *)
Definition checkCentered (e : BallPushEnv) : BallPushEnv * bool :=
  let ballInCenter := BallInCenter e in
  if ballInCenter && negb (HasCenteredBall e) then
    ({| Agent := Agent e;
        Ball := Ball e;
        HasTouchedBall := HasTouchedBall e;
        HasCenteredBall := true;
        Settings := Settings e |}, true)
  else (e, false).

(** Lines 198-199. *)
Definition integrate (e : BallPushEnv) : BallPushEnv :=
  {| Agent := StepParticle (Agent e);
     Ball := StepParticle (Ball e);
     HasTouchedBall := HasTouchedBall e;
     HasCenteredBall := HasCenteredBall e;
     Settings := Settings e |}.

(** The positions handed to the integrator: the state after lines 155-196. *)
Definition beforeIntegrate (e : BallPushEnv) (a0 a1 : R) : BallPushEnv * bool * bool :=
  let e := applyForces e a0 a1 in
  let e := containAgent e in
  let '(e, justTouchedBall) := resolveCollision e in
  let e := containBall e in
  let '(e, justCenteredBall) := checkCentered e in
  (e, justTouchedBall, justCenteredBall).

(** What one [Step] leaves: the environment after the call and the two
    locals that gate the one-shot bonuses. *)
Record StepLocals : Type := mkStepLocals {
  envAfter : BallPushEnv;
  justTouchedBall : bool;
  justCenteredBall : bool
}.

(** Lines 155-199. *)
Definition stepPhysics (e : BallPushEnv) (a0 a1 : R) : StepLocals :=
  let '(e, justTouchedBall, justCenteredBall) := beforeIntegrate e a0 a1 in
  {| envAfter := integrate e;
     justTouchedBall := justTouchedBall;
     justCenteredBall := justCenteredBall |}.

(** Lines 201 and 210: the shaping term for the ball moving to the center. *)
Definition moveToCenterTerm (e : BallPushEnv) : R :=
  let s := Settings e in
  let ballVelTowardsCenter :=
    Dot (Velocity (Ball e)) (Scaled (Unit (Position (Ball e))) (-1)) in
  MoveToCenterReward s * ballVelTowardsCenter * DeltaTime s / BoundaryRadius s.

(** Lines 213-215: the shaping term for the agent moving to the ball. *)
Definition moveToBallTerm (e : BallPushEnv) : R :=
  let s := Settings e in
  let agentBallDir := Unit (Sub (Position (Ball e)) (Position (Agent e))) in
  let agentVelTowardsBall := Dot (Velocity (Agent e)) agentBallDir in
  MoveToBallReward s * agentVelTowardsBall * DeltaTime s / (2 * BoundaryRadius s).

(** Lines 201-216. *)
Definition stepReward (l : StepLocals) : R :=
  let e := envAfter l in
  let s := Settings e in
  let reward := 0.0 in
  let reward := if justTouchedBall l then reward + TouchBallReward s else reward in
  let reward := if justCenteredBall l then reward + PlaceInCenterReward s else reward in
  let reward := reward + moveToCenterTerm e in
  let reward := if negb (HasTouchedBall e) then reward + moveToBallTerm e else reward in
  reward.

(** [Step] up to the integration, with its locals kept. *)
Definition stepLocals (e : BallPushEnv) (action : list R) : result StepLocals :=
  do _ <- validateAction action 2;
  do a0 <- index action 0;
  do a1 <- index action 1;
  Ok (stepPhysics e a0 a1).

Definition Step (e : BallPushEnv) (action : list R) : result (BallPushEnv * StepData) :=
  do l <- stepLocals e action;
  Ok (envAfter l,
      {| Observation := getObservation (envAfter l);
         Reward := stepReward l;
         Terminated := false;
         Info := getInfo (envAfter l) |}).

(** One episode: consecutive [Step] calls with no [Reset] in between; the
    locals of every step are kept, in order. *)
Fixpoint Episode (e : BallPushEnv) (actions : list (list R)) : result (list StepLocals) :=
  match actions with
  | [] => Ok []
  | action :: rest =>
      do l <- stepLocals e action;
      do ls <- Episode (envAfter l) rest;
      Ok (l :: ls)
  end.

(** The states a driver can bring an environment to: construction, then
    [Reset] and [Step] calls in any order. *)
Inductive Reachable (settings : BallPushSettings) : BallPushEnv -> Prop :=
| ReachNew (r1 a1 r2 a2 : R) :
    0 <= r1 < 1 -> 0 <= a1 < 1 -> 0 <= r2 < 1 -> 0 <= a2 < 1 ->
    Reachable settings (NewBallPushEnv settings r1 a1 r2 a2)
| ReachReset (e : BallPushEnv) (r1 a1 r2 a2 : R) :
    Reachable settings e ->
    0 <= r1 < 1 -> 0 <= a1 < 1 -> 0 <= r2 < 1 -> 0 <= a2 < 1 ->
    Reachable settings (fst (Reset e r1 a1 r2 a2))
| ReachStep (e e' : BallPushEnv) (action : list R) (d : StepData) :
    Reachable settings e ->
    Step e action = Ok (e', d) ->
    Reachable settings e'.

End BallPush.

(** ** env_walker.go *)

Module Walker.

Inductive Joint : Type := LHip | RHip | LKnee | RKnee.

(** The box2d world behind the walker: the calls [Step] and
    [getObservation] make on it.  The engine is an external library; its
    state and solver stay abstract, and its calls return (none of them
    panics on the speed it is given). *)
Record Engine : Type := mkEngine {
  B2World : Type;
  SetMotorSpeed : Joint -> R -> B2World -> B2World;
  GetJointAngle : Joint -> B2World -> R;
  GetJointSpeed : Joint -> B2World -> R;
  HeadAngle : B2World -> R;
  HeadLinearVelocity : B2World -> Vec;
  HeadPosition : B2World -> Vec;
  WorldStep : R -> Z -> Z -> B2World -> B2World
}.

Record WalkerSettings : Type := mkWalkerSettings {
  PlayerLimbLength : R;
  PlayerLimbWidth : R;
  PlayerBodyLength : R;
  PlayerBodyHeight : R;
  JointMaxAngle : R;
  JointMaxVelocity : R;
  JointMaxTorque : R;
  StopOnFall : bool
}.

Definition DefaultWalkerSettings : WalkerSettings :=
  {| PlayerLimbLength := 1;
     PlayerLimbWidth := 0.15;
     PlayerBodyLength := 2;
     PlayerBodyHeight := 0.25;
     JointMaxAngle := PI / 1.5;
     JointMaxVelocity := 5;
     JointMaxTorque := 15;
     StopOnFall := false |}.

(** The world with the bodies and joints of the player in it, and the two
    limits [NewPlayer] copies from the settings. *)
Record WalkerEnv (E : Engine) : Type := mkWalkerEnv {
  world : B2World E;
  MaxJointVelocity : R;
  MaxJointAngle : R;
  settings : WalkerSettings
}.
Arguments world {E} _.
Arguments MaxJointVelocity {E} _.
Arguments MaxJointAngle {E} _.
Arguments settings {E} _.
Arguments mkWalkerEnv {E} _ _ _ _.

Section WithEngine.
Context {E : Engine}.

Definition withWorld (e : WalkerEnv E) (w : B2World E) : WalkerEnv E :=
  mkWalkerEnv w (MaxJointVelocity e) (MaxJointAngle e) (settings e).

Definition ActionLength (e : WalkerEnv E) : Z := 4%Z.

Definition SetMotorSpeeds (e : WalkerEnv E) (lHip rHip lKnee rKnee : R) : WalkerEnv E :=
  let w := world e in
  let w := SetMotorSpeed E LHip (MaxJointVelocity e * lHip) w in
  let w := SetMotorSpeed E RHip (MaxJointVelocity e * rHip) w in
  let w := SetMotorSpeed E LKnee (MaxJointVelocity e * lKnee) w in
  let w := SetMotorSpeed E RKnee (MaxJointVelocity e * rKnee) w in
  withWorld e w.

Definition GetMotorAngles (e : WalkerEnv E) : list R :=
  map (fun j => GetJointAngle E j (world e)) [LHip; RHip; LKnee; RKnee].

Definition GetMotorVelocities (e : WalkerEnv E) : list R :=
  map (fun j => GetJointSpeed E j (world e)) [LHip; RHip; LKnee; RKnee].

Definition getObservation (e : WalkerEnv E) : list R :=
  let bodyAngle := HeadAngle E (world e) in
  map (fun a => a / MaxJointAngle e) (GetMotorAngles e)
  ++ map (fun v => v / MaxJointVelocity e) (GetMotorVelocities e)
  ++ [sin bodyAngle; cos bodyAngle].

Definition Step (e : WalkerEnv E) (action : list R) : result (WalkerEnv E * StepData) :=
  do a0 <- index action 0;
  do a1 <- index action 1;
  do a2 <- index action 2;
  do a3 <- index action 3;
  let e := SetMotorSpeeds e a0 a1 a2 a3 in
  let e := withWorld e (WorldStep E (1.0 / 60) 6 2 (world e)) in
  let headVx := X (HeadLinearVelocity E (world e)) in
  let headPy := Y (HeadPosition E (world e)) in
  Ok (e, {| Observation := getObservation e;
            Reward := headVx * (1.0 / 60);
            Terminated := Rltb headPy 1.2 && StopOnFall (settings e);
            Info := [] |}).

Definition ObservationLength (e : WalkerEnv E) : Z :=
  Z.of_nat (List.length (getObservation e)).

Definition ConvertCategoricalAction (e : WalkerEnv E) (a : Z) : result (list R) :=
  Panic "unimplemented".

Definition NumCategoricalActions (e : WalkerEnv E) : result Z :=
  Panic "unimplemented".

End WithEngine.

End Walker.

(** ** Specification-side definitions

    These follow the words of the specification, to be compared with the
    definitions above. *)

(** An action the contract accepts for an environment whose
    [actionLength()] is [n]: that length, every component in [[-1, 1]]. *)
Definition validAction (n : nat) (action : list R) : Prop :=
  List.length action = n /\ Forall (fun v => -1 <= v <= 1) action.

(** The clamp of a number to [[-1, 1]]. *)
Definition clampToUnit (x : R) : R := Rmax (-1) (Rmin 1 x).

(** ** Concrete inputs *)

(** A small arena: boundary radius 4, both radii 1, half-second steps. *)
Definition smallArenaSettings : BallPush.BallPushSettings :=
  {| BallPush.BallRadius := 1;
     BallPush.AgentRadius := 1;
     BallPush.AgentAcceleration := 8;
     BallPush.AgentDrag := 1;
     BallPush.BallDrag := 1;
     BallPush.BoundaryRadius := 4;
     BallPush.MoveToBallReward := 0.5;
     BallPush.TouchBallReward := 1;
     BallPush.MoveToCenterReward := 1;
     BallPush.PlaceInCenterReward := 2;
     BallPush.TargetRadius := 2;
     BallPush.Scale := 10;
     BallPush.DeltaTime := 1 / 2 |}.

(** An environment under the default settings in which both particles lie
    on the Y axis and move along it, with nothing accumulated on them:
    position, previous position, cached velocity and cached acceleration of
    the agent ([ya], [ypa], [va], [aa]) and of the ball ([yb], [ypb], [vb],
    [ab]). *)
Definition onYAxis (ya ypa va aa yb ypb vb ab : R) (touched : bool)
  : BallPush.BallPushEnv :=
  {| BallPush.Agent :=
       {| currentPosition := V 0 ya;
          previousPosition := V 0 ypa;
          mass := 1;
          currentForce := ZV;
          currentImpulse := ZV;
          recentVelocity := V 0 va;
          recentAcceleration := V 0 aa;
          dt := 1.0 / 60.0 |};
     BallPush.Ball :=
       {| currentPosition := V 0 yb;
          previousPosition := V 0 ypb;
          mass := 1;
          currentForce := ZV;
          currentImpulse := ZV;
          recentVelocity := V 0 vb;
          recentAcceleration := V 0 ab;
          dt := 1.0 / 60.0 |};
     BallPush.HasTouchedBall := touched;
     BallPush.HasCenteredBall := false;
     BallPush.Settings := BallPush.DefaultBallPushSettings |}.

(** ** Auxiliary notions for the statements *)

(** The velocity the position pair of a particle encodes. *)
Definition pairVelocity (p : VerletParticle) : Vec :=
  Scaled (Sub (currentPosition p) (previousPosition p)) (1 / dt p).

(** The cart-pole state seen in a mirror: positions, angles and velocities
    negated, settings kept. *)
Definition mirrorCartPole (e : CartPole.CartPoleEnv) : CartPole.CartPoleEnv :=
  {| CartPole.BoxPosition := - CartPole.BoxPosition e;
     CartPole.BoxVelocity := - CartPole.BoxVelocity e;
     CartPole.PoleRotation := - CartPole.PoleRotation e;
     CartPole.PoleRotationalVelocity := - CartPole.PoleRotationalVelocity e;
     CartPole.Settings := CartPole.Settings e |}.

(** The environment with the force accumulated on the agent replaced. *)
Definition setAgentForce (e : BallPush.BallPushEnv) (force : Vec) : BallPush.BallPushEnv :=
  {| BallPush.Agent :=
       {| currentPosition := currentPosition (BallPush.Agent e);
          previousPosition := previousPosition (BallPush.Agent e);
          mass := mass (BallPush.Agent e);
          currentForce := force;
          currentImpulse := currentImpulse (BallPush.Agent e);
          recentVelocity := recentVelocity (BallPush.Agent e);
          recentAcceleration := recentAcceleration (BallPush.Agent e);
          dt := dt (BallPush.Agent e) |};
     BallPush.Ball := BallPush.Ball e;
     BallPush.HasTouchedBall := BallPush.HasTouchedBall e;
     BallPush.HasCenteredBall := BallPush.HasCenteredBall e;
     BallPush.Settings := BallPush.Settings e |}.

(** * Theorems *)

Lemma Vec_eq (a b c d : R) : a = c -> b = d -> V a b = V c d.
Proof. intros -> ->; reflexivity. Qed.

Lemma Vec_neq_X (u v : Vec) : X u <> X v -> u <> v.
Proof. intros H E; apply H; rewrite E; reflexivity. Qed.

(** Decimal literals of the source ([0.5], [1.5], ...) as quotients of
    integers, for [field]. *)
Ltac rdec :=
  unfold Q2R in *; cbn [QArith_base.Qnum QArith_base.Qden] in *.

(** Unfolds the vector operations down to their coordinates. *)
Ltac vsimpl :=
  cbn [Position Velocity Acceleration Mass
       SetVelocity SlideToPosition ApplyForce ApplyImpulse StepParticle
       NewVerletParticle
       currentPosition previousPosition mass currentForce currentImpulse
       recentVelocity recentAcceleration dt];
  unfold Add, Sub, Scaled, Dot, ZV; cbn [X Y].

(** ** Comparisons *)

Lemma Rltb_true (x y : R) : Rltb x y = true <-> x < y.
Proof. unfold Rltb; destruct (Rlt_dec x y); split; intros; try discriminate; tauto. Qed.

Lemma Rltb_false (x y : R) : Rltb x y = false <-> y <= x.
Proof.
  unfold Rltb; destruct (Rlt_dec x y); split; intros; try discriminate;
    try reflexivity; lra.
Qed.

Lemma Rgtb_true (x y : R) : Rgtb x y = true <-> x > y.
Proof. unfold Rgtb; rewrite Rltb_true; lra. Qed.

Lemma Rgtb_false (x y : R) : Rgtb x y = false <-> x <= y.
Proof. unfold Rgtb; rewrite Rltb_false; lra. Qed.

Lemma Reqb_true (x y : R) : Reqb x y = true <-> x = y.
Proof. unfold Reqb; destruct (Req_dec_T x y); split; intros; try discriminate; tauto. Qed.

Lemma Reqb_false (x y : R) : Reqb x y = false <-> x <> y.
Proof.
  unfold Reqb; destruct (Req_dec_T x y); split; intros; try discriminate;
    try reflexivity; tauto.
Qed.

(** Case analysis on one comparison of the source, leaving the order fact
    in the context. *)
Ltac case_cmp x y :=
  let H := fresh "Hcmp" in
  lazymatch goal with
  | |- context [Rltb x y] =>
      destruct (Rltb x y) eqn:H;
      [apply Rltb_true in H | apply Rltb_false in H]
  | |- context [Rgtb x y] =>
      destruct (Rgtb x y) eqn:H;
      [apply Rgtb_true in H | apply Rgtb_false in H]
  end.

Ltac case_cmps :=
  repeat match goal with
  | |- context [Rltb ?x ?y] => case_cmp x y
  | |- context [Rgtb ?x ?y] => case_cmp x y
  end.

(** ** Verlet particle *)

Lemma SetVelocity_Position (p : VerletParticle) (v : Vec) :
  Position (SetVelocity p v) = Position p.
Proof. reflexivity. Qed.

(** The position pair left by [SetVelocity v] encodes [v]. *)
Lemma SetVelocity_position_pair (p : VerletParticle) (v : Vec) :
  dt p <> 0 ->
  let q := SetVelocity p v in
  Scaled (Sub (currentPosition q) (previousPosition q)) (1 / dt p) = v.
Proof.
  intros Hdt; destruct v as [vx vy]; vsimpl.
  apply Vec_eq; field; exact Hdt.
Qed.

(** C4 (code at the failing input): on a fresh particle, [SetVelocity (1, 0)]
    leaves the position where it was, but the following [Velocity()] read
    returns the cached zero vector, not [(1, 0)]. *)
Theorem SetVelocity_then_Velocity_is_stale :
  let p := NewVerletParticle ZV 1 (1 / 60) in
  let v := V 1 0 in
  Position (SetVelocity p v) = Position p /\
  Velocity (SetVelocity p v) = ZV /\
  Velocity (SetVelocity p v) <> v.
Proof.
  cbn zeta; vsimpl; repeat split.
  apply Vec_neq_X; cbn [X]; lra.
Qed.

(** One force-free step: the accumulators stay empty, the displacement of
    the position pair is carried over, and the cached velocity is that
    displacement per time step. *)
Lemma StepParticle_force_free (p : VerletParticle) :
  currentForce p = ZV -> currentImpulse p = ZV ->
  let q := StepParticle p in
  currentForce q = ZV /\ currentImpulse q = ZV /\
  dt q = dt p /\ mass q = mass p /\
  Sub (currentPosition q) (previousPosition q)
    = Sub (currentPosition p) (previousPosition p) /\
  Sub (currentPosition q) (currentPosition p)
    = Sub (currentPosition p) (previousPosition p) /\
  (dt p <> 0 ->
   Velocity q = Scaled (Sub (currentPosition p) (previousPosition p)) (1 / dt p)).
Proof.
  intros HF HI; cbn zeta; vsimpl; rewrite HF, HI; vsimpl.
  repeat split.
  - apply Vec_eq; ring.
  - apply Vec_eq; ring.
  - intros Hdt; apply Vec_eq; rdec; unfold Rdiv;
      generalize (/ mass p); intros im; field; exact Hdt.
Qed.

Lemma StepParticleN_force_free (p : VerletParticle) (n : nat) :
  currentForce p = ZV -> currentImpulse p = ZV ->
  let q := StepParticleN n p in
  currentForce q = ZV /\ currentImpulse q = ZV /\
  dt q = dt p /\ mass q = mass p /\
  Sub (currentPosition q) (previousPosition q)
    = Sub (currentPosition p) (previousPosition p).
Proof.
  intros HF HI; induction n as [|n IH]; cbn [StepParticleN].
  - repeat split; assumption.
  - destruct IH as (IF & II & Idt & Im & Id).
    destruct (StepParticle_force_free (StepParticleN n p) IF II)
      as (QF & QI & Qdt & Qm & Qd & _).
    cbn zeta; repeat split; congruence.
Qed.

(** C8: on a particle whose accumulated force and impulse are zero (no
    [ApplyForce] or [ApplyImpulse] call is made), every [StepParticle] call
    advances [currentPosition] by the same displacement
    [currentPosition - previousPosition] of the start, and [Velocity()]
    after each call is that displacement divided by the time step, the same
    value after every call. *)
Theorem zero_force_constant_velocity (p : VerletParticle) (n : nat) :
  currentForce p = ZV -> currentImpulse p = ZV ->
  dt p <> 0 -> mass p <> 0 ->
  let d := Sub (currentPosition p) (previousPosition p) in
  Sub (currentPosition (StepParticleN (S n) p)) (currentPosition (StepParticleN n p)) = d /\
  Velocity (StepParticleN (S n) p) = Scaled d (1 / dt p) /\
  Velocity (StepParticleN (S n) p) = Velocity (StepParticleN 1 p).
Proof.
  intros HF HI Hdt _ d.
  destruct (StepParticleN_force_free p n HF HI) as (IF & II & Idt & _ & Id).
  destruct (StepParticle_force_free (StepParticleN n p) IF II)
    as (_ & _ & _ & _ & _ & Qs & Qv).
  destruct (StepParticle_force_free p HF HI) as (_ & _ & _ & _ & _ & _ & Pv).
  cbn [StepParticleN]; cbn zeta in *.
  rewrite Id in Qs, Qv; rewrite Idt in Qv.
  repeat split.
  - exact Qs.
  - apply Qv, Hdt.
  - rewrite Qv, Pv by exact Hdt; reflexivity.
Qed.

Lemma zero_force_constant_velocity_witness :
  let p := SetVelocity (NewVerletParticle (V 1 2) 1 (1 / 60)) (V 3 0) in
  Sub (currentPosition (StepParticleN 4 p)) (currentPosition (StepParticleN 3 p))
    = Sub (currentPosition p) (previousPosition p) /\
  Velocity (StepParticleN 4 p)
    = Scaled (Sub (currentPosition p) (previousPosition p)) (1 / dt p) /\
  Velocity (StepParticleN 4 p) = Velocity (StepParticleN 1 p).
Proof.
  intros p.
  apply (zero_force_constant_velocity p 3); cbn; try reflexivity; lra.
Defined.

(** The four non-integrating calls leave the cached reads alone. *)
Lemma applyCall_cached (p : VerletParticle) (c : ParticleCall) :
  recentVelocity (applyCall p c) = recentVelocity p /\
  recentAcceleration (applyCall p c) = recentAcceleration p.
Proof. destruct c; split; reflexivity. Qed.

Lemma applyCalls_cached (cs : list ParticleCall) (p : VerletParticle) :
  recentVelocity (applyCalls p cs) = recentVelocity p /\
  recentAcceleration (applyCalls p cs) = recentAcceleration p.
Proof.
  revert p; induction cs as [|c cs IH]; intros p; cbn.
  - split; reflexivity.
  - destruct (IH (applyCall p c)) as [Hv Ha].
    destruct (applyCall_cached p c) as [Hv' Ha'].
    unfold applyCalls in Hv, Ha; split; congruence.
Qed.

(** C10: [SlideToPosition] writes [currentPosition] only and [SetVelocity]
    writes [previousPosition] only; the cached [recentVelocity] and
    [recentAcceleration] (and every other field) are left as they were.
    Hence, after any sequence of such calls, [Velocity()] and
    [Acceleration()] still return what the most recent [StepParticle]
    computed, or the zero vectors on a particle that was never stepped. *)
Theorem position_edits_keep_cached_reads :
  (forall p newPos,
     let q := SlideToPosition p newPos in
     currentPosition q = newPos /\
     previousPosition q = previousPosition p /\
     recentVelocity q = recentVelocity p /\
     recentAcceleration q = recentAcceleration p /\
     mass q = mass p /\ currentForce q = currentForce p /\
     currentImpulse q = currentImpulse p /\ dt q = dt p) /\
  (forall p vel,
     let q := SetVelocity p vel in
     currentPosition q = currentPosition p /\
     previousPosition q = Sub (currentPosition p) (Scaled vel (dt p)) /\
     recentVelocity q = recentVelocity p /\
     recentAcceleration q = recentAcceleration p /\
     mass q = mass p /\ currentForce q = currentForce p /\
     currentImpulse q = currentImpulse p /\ dt q = dt p) /\
  (forall p cs,
     Velocity (applyCalls (StepParticle p) cs) = Velocity (StepParticle p) /\
     Acceleration (applyCalls (StepParticle p) cs) = Acceleration (StepParticle p)) /\
  (forall position m h cs,
     Velocity (applyCalls (NewVerletParticle position m h) cs) = ZV /\
     Acceleration (applyCalls (NewVerletParticle position m h) cs) = ZV).
Proof.
  split; [|split; [|split]].
  - intros p newPos; cbn; repeat split.
  - intros p vel; cbn; repeat split.
  - intros p cs; unfold Velocity, Acceleration; apply applyCalls_cached.
  - intros position m h cs; unfold Velocity, Acceleration.
    destruct (applyCalls_cached cs (NewVerletParticle position m h)) as [Hv Ha].
    rewrite Hv, Ha; split; reflexivity.
Qed.

(** ** Action validation *)

Lemma validateRange_ok (action : list R) :
  validateRange action = Ok tt <-> Forall (fun v => -1 <= v <= 1) action.
Proof.
  induction action as [|v rest IH]; cbn.
  - split; intros; [constructor | reflexivity].
  - case_cmps; cbn [orb];
      try (split; [discriminate | intros H; inversion H; subst; lra]).
    rewrite IH; split.
    + intros H; constructor; [lra | exact H].
    + intros H; inversion H; assumption.
Qed.

Lemma validateRange_panic (action : list R) :
  validateRange action = Ok tt \/
  validateRange action = Panic "Invalid action: out of range -1 to 1".
Proof.
  induction action as [|v rest IH]; cbn.
  - left; reflexivity.
  - destruct (Rltb v (-1) || Rgtb v 1); [right; reflexivity | exact IH].
Qed.

Lemma validateAction_ok (action : list R) (n : nat) :
  validateAction action (Z.of_nat n) = Ok tt <-> validAction n action.
Proof.
  unfold validateAction, validAction.
  destruct (Z.eqb_spec (Z.of_nat (List.length action)) (Z.of_nat n)) as [E|E]; cbn [negb].
  - rewrite validateRange_ok; split; [intros H; split; [lia | exact H] | tauto].
  - split; [discriminate | intros [H _]; subst; tauto].
Qed.

(** [validateAction] either returns or panics with one of its two messages;
    it returns exactly on the valid actions. *)
Lemma validateAction_cases (action : list R) (n : nat) :
  (validAction n action /\ validateAction action (Z.of_nat n) = Ok tt) \/
  (~ validAction n action /\
   exists msg, validateAction action (Z.of_nat n) = Panic msg).
Proof.
  destruct (validateAction action (Z.of_nat n)) as [[]|msg] eqn:E.
  - left; split; [apply validateAction_ok; exact E | reflexivity].
  - right; split; [|exists msg; reflexivity].
    intros H; apply validateAction_ok in H; congruence.
Qed.

(** On an invalid action [validateAction] panics, with one of its two
    messages. *)
Lemma validateAction_invalid (action : list R) (n : nat) :
  ~ validAction n action ->
  validateAction action (Z.of_nat n) = Panic "Invalid action: length mismatch" \/
  validateAction action (Z.of_nat n) = Panic "Invalid action: out of range -1 to 1".
Proof.
  intros Hn; unfold validateAction.
  destruct (Z.eqb_spec (Z.of_nat (List.length action)) (Z.of_nat n)) as [E|E]; cbn [negb].
  - right; destruct (validateRange_panic action) as [H|H]; [|exact H].
    exfalso; apply Hn; split; [lia | apply validateRange_ok, H].
  - left; reflexivity.
Qed.

(** ** CartPole *)

Lemma CartPole_Step_is_ok (e : CartPole.CartPoleEnv) (action : list R) :
  is_ok (CartPole.Step e action) = true <-> validAction 1 action.
Proof.
  unfold CartPole.Step, CartPole.ActionLength.
  change 1%Z with (Z.of_nat 1).
  destruct (validateAction_cases action 1) as [[Hv ->]|[Hn [msg ->]]]; cbn [bind].
  - destruct Hv as [Hlen Hr].
    destruct action as [|a [|b rest]]; try discriminate Hlen.
    cbn [index nth_error bind].
    destruct (CartPole.stepOutcome _); cbn; split; [intros _; split; assumption | reflexivity].
  - cbn; split; [discriminate | tauto].
Qed.

(** [Step] on a valid action, unfolded. *)
Lemma CartPole_Step_valid (e : CartPole.CartPoleEnv) (a : R) :
  -1 <= a <= 1 ->
  CartPole.Step e [a] =
  Ok (CartPole.stepPhysics e a,
      {| Observation := CartPole.getObservation (CartPole.stepPhysics e a);
         Reward := snd (CartPole.stepOutcome (CartPole.stepPhysics e a));
         Terminated := fst (CartPole.stepOutcome (CartPole.stepPhysics e a));
         Info := [] |}).
Proof.
  intros Ha; unfold CartPole.Step, CartPole.ActionLength.
  change 1%Z with (Z.of_nat 1).
  assert (Hv : validAction 1 [a]) by (split; [reflexivity | constructor; [lra | constructor]]).
  apply validateAction_ok in Hv; rewrite Hv; cbn [bind index nth_error].
  destruct (CartPole.stepOutcome _); reflexivity.
Qed.

Lemma CartPole_Step_inv (e e' : CartPole.CartPoleEnv) (action : list R) (d : StepData) :
  CartPole.Step e action = Ok (e', d) ->
  exists a, action = [a] /\ -1 <= a <= 1 /\
    e' = CartPole.stepPhysics e a /\
    Observation d = CartPole.getObservation e' /\
    Reward d = snd (CartPole.stepOutcome e') /\
    Terminated d = fst (CartPole.stepOutcome e').
Proof.
  intros H.
  assert (Hok : is_ok (CartPole.Step e action) = true) by (rewrite H; reflexivity).
  apply CartPole_Step_is_ok in Hok; destruct Hok as [Hlen Hr].
  destruct action as [|a [|b rest]]; try discriminate Hlen.
  inversion Hr as [|? ? Ha _]; subst.
  rewrite (CartPole_Step_valid e a Ha) in H; inversion H; subst; cbn.
  exists a; repeat split; lra.
Qed.

Lemma CartPole_stepPhysics_Settings (e : CartPole.CartPoleEnv) (a : R) :
  CartPole.Settings (CartPole.stepPhysics e a) = CartPole.Settings e.
Proof. reflexivity. Qed.

(** The three-way outcome of [stepOutcome], with the conditions as order
    facts. *)
Lemma CartPole_stepOutcome_cases (e : CartPole.CartPoleEnv) :
  let s := CartPole.Settings e in
  ((CartPole.BoxPosition e > 1 \/ CartPole.BoxPosition e < -1) ->
   CartPole.stepOutcome e = (true, CartPole.OutOfBoundsReward s)) /\
  (-1 <= CartPole.BoxPosition e <= 1 ->
   (CartPole.PoleRotation e > CartPole.FailAngle s \/
    CartPole.PoleRotation e < - CartPole.FailAngle s) ->
   CartPole.stepOutcome e = (true, CartPole.PoleFallReward s)) /\
  (-1 <= CartPole.BoxPosition e <= 1 ->
   - CartPole.FailAngle s <= CartPole.PoleRotation e <= CartPole.FailAngle s ->
   CartPole.stepOutcome e =
     (false, CartPole.CenteredPerStepReward s - Rabs (CartPole.BoxPosition e))).
Proof.
  cbn zeta; unfold CartPole.stepOutcome.
  repeat split; intros; case_cmps; cbn [orb]; try reflexivity; try lra.
  f_equal; ring.
Qed.

(** C5: [Step] decides termination and reward on the state left by the
    physics update, in priority order: cart position outside [[-1, 1]]
    gives [terminated] with [OutOfBoundsReward]; otherwise pole angle
    outside [[-FailAngle, FailAngle]] gives [terminated] with
    [PoleFallReward]; otherwise not terminated, with reward
    [CenteredPerStepReward - |cartPosition|]. *)
Theorem CartPole_Step_termination_priority
  (e e' : CartPole.CartPoleEnv) (action : list R) (d : StepData) :
  CartPole.Step e action = Ok (e', d) ->
  let s := CartPole.Settings e in
  (exists a, action = [a] /\ e' = CartPole.stepPhysics e a) /\
  ((CartPole.BoxPosition e' > 1 \/ CartPole.BoxPosition e' < -1) ->
   Terminated d = true /\ Reward d = CartPole.OutOfBoundsReward s) /\
  (-1 <= CartPole.BoxPosition e' <= 1 ->
   (CartPole.PoleRotation e' > CartPole.FailAngle s \/
    CartPole.PoleRotation e' < - CartPole.FailAngle s) ->
   Terminated d = true /\ Reward d = CartPole.PoleFallReward s) /\
  (-1 <= CartPole.BoxPosition e' <= 1 ->
   - CartPole.FailAngle s <= CartPole.PoleRotation e' <= CartPole.FailAngle s ->
   Terminated d = false /\
   Reward d = CartPole.CenteredPerStepReward s - Rabs (CartPole.BoxPosition e')).
Proof.
  intros H s.
  destruct (CartPole_Step_inv _ _ _ _ H) as (a & -> & Ha & He' & _ & HR & HT).
  destruct (CartPole_stepOutcome_cases e') as (C1 & C2 & C3).
  assert (Hs : CartPole.Settings e' = s) by (subst e'; reflexivity).
  cbn zeta in C1, C2, C3; rewrite Hs in C1, C2, C3.
  rewrite HR, HT.
  split; [exists a; split; [reflexivity | exact He'] |].
  split; [|split].
  - intros Hc; rewrite (C1 Hc); split; reflexivity.
  - intros Hb Hc; rewrite (C2 Hb Hc); split; reflexivity.
  - intros Hb Hc; rewrite (C3 Hb Hc); split; reflexivity.
Qed.

Lemma CartPole_Step_termination_priority_witness :
  let e := fst (CartPole.Reset (CartPole.NewCartPoleEnv CartPole.DefaultCartPoleSettings)
                  (1 / 2) (1 / 2)) in
  let e' := CartPole.stepPhysics e 1 in
  let d := {| Observation := CartPole.getObservation e';
              Reward := snd (CartPole.stepOutcome e');
              Terminated := fst (CartPole.stepOutcome e');
              Info := [] |} in
  let s := CartPole.Settings e in
  CartPole.Step e [1] = Ok (e', d) /\
  (exists a, [1] = [a] /\ e' = CartPole.stepPhysics e a) /\
  ((CartPole.BoxPosition e' > 1 \/ CartPole.BoxPosition e' < -1) ->
   Terminated d = true /\ Reward d = CartPole.OutOfBoundsReward s) /\
  (-1 <= CartPole.BoxPosition e' <= 1 ->
   (CartPole.PoleRotation e' > CartPole.FailAngle s \/
    CartPole.PoleRotation e' < - CartPole.FailAngle s) ->
   Terminated d = true /\ Reward d = CartPole.PoleFallReward s) /\
  (-1 <= CartPole.BoxPosition e' <= 1 ->
   - CartPole.FailAngle s <= CartPole.PoleRotation e' <= CartPole.FailAngle s ->
   Terminated d = false /\
   Reward d = CartPole.CenteredPerStepReward s - Rabs (CartPole.BoxPosition e')).
Proof.
  intros e e' d s.
  assert (H : CartPole.Step e [1] = Ok (e', d)) by (apply CartPole_Step_valid; lra).
  split; [exact H |].
  exact (CartPole_Step_termination_priority e e' [1] d H).
Defined.

(** Both failure conditions at once: the cart leaves [[-1, 1]] in the same
    step in which the pole passes [FailAngle]; the out-of-bounds reward is
    the one returned. *)
Lemma CartPole_out_of_bounds_before_pole_fall :
  let e := {| CartPole.BoxPosition := 1;
              CartPole.BoxVelocity := 1.5;
              CartPole.PoleRotation := PI / 2;
              CartPole.PoleRotationalVelocity := 0;
              CartPole.Settings := CartPole.DefaultCartPoleSettings |} in
  exists e' d,
    CartPole.Step e [1] = Ok (e', d) /\
    CartPole.BoxPosition e' > 1 /\
    CartPole.PoleRotation e' > CartPole.FailAngle (CartPole.Settings e) /\
    Terminated d = true /\
    Reward d = CartPole.OutOfBoundsReward (CartPole.Settings e).
Proof.
  intros e.
  rewrite (CartPole_Step_valid e 1) by lra.
  eexists; eexists; split; [reflexivity |].
  cbn [Reward Terminated].
  assert (HB : CartPole.BoxPosition (CartPole.stepPhysics e 1) > 1).
  { unfold CartPole.stepPhysics; cbn; case_cmps; lra. }
  assert (HP : CartPole.PoleRotation (CartPole.stepPhysics e 1) > PI / 2).
  { pose proof PI2_1 as Hpi.
    unfold CartPole.stepPhysics; cbn; rewrite sin_PI2, cos_PI2.
    case_cmps; lra. }
  destruct (CartPole_stepOutcome_cases (CartPole.stepPhysics e 1)) as (C1 & _).
  cbn zeta in C1; rewrite (C1 (or_introl HB)).
  repeat split; assumption.
Qed.

(** Both clamps of [stepPhysics] leave the velocity inside the configured
    maximum, whatever the state before. *)
Lemma CartPole_stepPhysics_bounded (e : CartPole.CartPoleEnv) (a : R) :
  let s := CartPole.Settings e in
  0 <= CartPole.MaxVelocity s ->
  0 <= CartPole.MaxRotationalVelocity s ->
  Rabs (CartPole.BoxVelocity (CartPole.stepPhysics e a)) <= CartPole.MaxVelocity s /\
  Rabs (CartPole.PoleRotationalVelocity (CartPole.stepPhysics e a))
    <= CartPole.MaxRotationalVelocity s.
Proof.
  cbn zeta; intros Hv Hr; unfold CartPole.stepPhysics; cbn.
  split; case_cmps; apply Rabs_le; lra.
Qed.

Lemma CartPole_Run_bounded (s : CartPole.CartPoleSettings) (actions : list (list R)) :
  0 <= CartPole.MaxVelocity s ->
  0 <= CartPole.MaxRotationalVelocity s ->
  Forall (validAction 1) actions ->
  forall e, CartPole.Settings e = s ->
  exists rs,
    CartPole.Run e actions = Ok rs /\
    List.length rs = List.length actions /\
    Forall (fun r =>
              Rabs (CartPole.BoxVelocity (fst r)) <= CartPole.MaxVelocity s /\
              Rabs (CartPole.PoleRotationalVelocity (fst r))
                <= CartPole.MaxRotationalVelocity s) rs.
Proof.
  intros Hv Hr Hall; induction Hall as [|action rest Hact _ IH]; intros e He.
  - exists []; cbn; repeat split; constructor.
  - destruct Hact as [Hlen Hrange].
    destruct action as [|a [|b tl]]; try discriminate Hlen.
    pose proof (Forall_inv Hrange) as Ha; cbn beta in Ha.
    cbn [CartPole.Run]; rewrite (CartPole_Step_valid e a Ha); cbn [bind fst].
    destruct (IH (CartPole.stepPhysics e a)) as (rs & HRun & HL & HF);
      [rewrite CartPole_stepPhysics_Settings; exact He |].
    rewrite HRun; cbn [bind].
    eexists; split; [reflexivity |]; split; [cbn; rewrite HL; reflexivity |].
    constructor; [|exact HF]; cbn [fst].
    destruct (CartPole_stepPhysics_bounded e a) as [B1 B2];
      rewrite ?He; try assumption.
    rewrite He in B1, B2; split; assumption.
Qed.

(** C6: with non-negative configured maxima, from any state produced by
    [Reset] every finite sequence of valid actions is stepped through
    without a panic, and after every [Step] call the cart velocity and the
    pole angular velocity are within [MaxVelocity] and
    [MaxRotationalVelocity] in absolute value. *)
Theorem CartPole_velocities_bounded
  (e0 : CartPole.CartPoleEnv) (rand1 rand2 : R) (actions : list (list R)) :
  let s := CartPole.Settings e0 in
  0 <= CartPole.MaxVelocity s ->
  0 <= CartPole.MaxRotationalVelocity s ->
  Forall (validAction 1) actions ->
  exists rs,
    CartPole.Run (fst (CartPole.Reset e0 rand1 rand2)) actions = Ok rs /\
    List.length rs = List.length actions /\
    Forall (fun r =>
              Rabs (CartPole.BoxVelocity (fst r)) <= CartPole.MaxVelocity s /\
              Rabs (CartPole.PoleRotationalVelocity (fst r))
                <= CartPole.MaxRotationalVelocity s) rs.
Proof.
  intros s Hv Hr Hall.
  apply CartPole_Run_bounded; try assumption; reflexivity.
Qed.

Lemma CartPole_velocities_bounded_witness :
  let e0 := CartPole.NewCartPoleEnv CartPole.DefaultCartPoleSettings in
  let s := CartPole.Settings e0 in
  exists rs,
    CartPole.Run (fst (CartPole.Reset e0 (1 / 4) (3 / 4))) [[1]; [1]; [-1]; [0]] = Ok rs /\
    List.length rs = 4%nat /\
    Forall (fun r =>
              Rabs (CartPole.BoxVelocity (fst r)) <= CartPole.MaxVelocity s /\
              Rabs (CartPole.PoleRotationalVelocity (fst r))
                <= CartPole.MaxRotationalVelocity s) rs.
Proof.
  intros e0 s.
  apply (CartPole_velocities_bounded e0 (1 / 4) (3 / 4) [[1]; [1]; [-1]; [0]]).
  - cbn; lra.
  - cbn; pose proof PI_RGT_0; lra.
  - repeat (constructor; [split; [reflexivity | constructor; [lra | constructor]] |]).
    constructor.
Defined.

Lemma clampOne_clampToUnit (x : R) : clampOne x = clampToUnit x.
Proof.
  unfold clampOne, clampToUnit, Rmax, Rmin; cbn zeta.
  case_cmps; repeat destruct (Rle_dec _ _); lra.
Qed.

Lemma CartPole_getObservation_clamp (e : CartPole.CartPoleEnv) :
  CartPole.getObservation e =
  map clampToUnit
    [ CartPole.BoxPosition e;
      CartPole.BoxVelocity e / CartPole.MaxVelocity (CartPole.Settings e);
      CartPole.PoleRotation e / 180;
      CartPole.PoleRotationalVelocity e
        / CartPole.MaxRotationalVelocity (CartPole.Settings e) ].
Proof.
  unfold CartPole.getObservation, clampAll; cbn [map].
  rewrite !clampOne_clampToUnit.
  replace 180.0 with 180 by lra; reflexivity.
Qed.

(** C7: the observation returned by [Step] and by [Reset] is the
    element-wise clamp to [[-1, 1]] of (cart position, cart velocity over
    [MaxVelocity], pole angle over the constant 180, pole angular velocity
    over [MaxRotationalVelocity]), read on the state the call leaves. *)
Theorem CartPole_observation_is_clamped_vector :
  (forall e action e' d,
     CartPole.Step e action = Ok (e', d) ->
     Observation d =
     map clampToUnit
       [ CartPole.BoxPosition e';
         CartPole.BoxVelocity e' / CartPole.MaxVelocity (CartPole.Settings e');
         CartPole.PoleRotation e' / 180;
         CartPole.PoleRotationalVelocity e'
           / CartPole.MaxRotationalVelocity (CartPole.Settings e') ]) /\
  (forall e rand1 rand2,
     let e' := fst (CartPole.Reset e rand1 rand2) in
     ResetObservation (snd (CartPole.Reset e rand1 rand2)) =
     map clampToUnit
       [ CartPole.BoxPosition e';
         CartPole.BoxVelocity e' / CartPole.MaxVelocity (CartPole.Settings e');
         CartPole.PoleRotation e' / 180;
         CartPole.PoleRotationalVelocity e'
           / CartPole.MaxRotationalVelocity (CartPole.Settings e') ]).
Proof.
  split.
  - intros e action e' d H.
    destruct (CartPole_Step_inv _ _ _ _ H) as (a & _ & _ & _ & HO & _).
    rewrite HO; apply CartPole_getObservation_clamp.
  - intros e rand1 rand2 e'.
    cbn [CartPole.Reset snd ResetObservation].
    apply CartPole_getObservation_clamp.
Qed.

Lemma CartPole_observation_is_clamped_vector_witness :
  let e := fst (CartPole.Reset (CartPole.NewCartPoleEnv CartPole.DefaultCartPoleSettings)
                  (1 / 2) (1 / 2)) in
  let e' := CartPole.stepPhysics e 1 in
  let d := {| Observation := CartPole.getObservation e';
              Reward := snd (CartPole.stepOutcome e');
              Terminated := fst (CartPole.stepOutcome e');
              Info := [] |} in
  CartPole.Step e [1] = Ok (e', d) /\
  Observation d =
  map clampToUnit
    [ CartPole.BoxPosition e';
      CartPole.BoxVelocity e' / CartPole.MaxVelocity (CartPole.Settings e');
      CartPole.PoleRotation e' / 180;
      CartPole.PoleRotationalVelocity e'
        / CartPole.MaxRotationalVelocity (CartPole.Settings e') ].
Proof.
  intros e e' d.
  assert (H : CartPole.Step e [1] = Ok (e', d)) by (apply CartPole_Step_valid; lra).
  split; [exact H |].
  exact (proj1 CartPole_observation_is_clamped_vector e [1] e' d H).
Defined.

(** ** Vector lengths *)

Lemma Len_sq_nonneg (u : Vec) : 0 <= X u * X u + Y u * Y u.
Proof. nra. Qed.

Lemma Len_axis_X (x : R) : Len (V x 0) = Rabs x.
Proof.
  unfold Len; cbn [X Y].
  replace (x * x + 0 * 0) with (Rsqr x) by (unfold Rsqr; ring).
  apply sqrt_Rsqr_abs.
Qed.

Lemma Len_axis_Y (y : R) : Len (V 0 y) = Rabs y.
Proof.
  unfold Len; cbn [X Y].
  replace (0 * 0 + y * y) with (Rsqr y) by (unfold Rsqr; ring).
  apply sqrt_Rsqr_abs.
Qed.

Lemma Len_on_Y (x y : R) : x = 0 -> 0 <= y -> Len (V x y) = y.
Proof. intros -> H; rewrite Len_axis_Y; apply Rabs_pos_eq, H. Qed.

Lemma Len_pos (u : Vec) : X u <> 0 \/ Y u <> 0 -> 0 < Len u.
Proof.
  intros H; unfold Len; apply sqrt_lt_R0.
  destruct H as [H|H]; nra.
Qed.

Lemma Len_ZV : Len (V 0 0) = 0.
Proof. rewrite Len_axis_X, Rabs_R0; reflexivity. Qed.

Lemma Len_Scaled (u : Vec) (c : R) : Len (Scaled u c) = Len u * Rabs c.
Proof.
  unfold Len, Scaled; cbn [X Y].
  replace (X u * c * (X u * c) + Y u * c * (Y u * c))
    with ((X u * X u + Y u * Y u) * Rsqr c) by (unfold Rsqr; ring).
  rewrite sqrt_mult; [| apply Len_sq_nonneg | apply Rle_0_sqr].
  rewrite sqrt_Rsqr_abs; reflexivity.
Qed.

Lemma Unit_nonzero (u : Vec) :
  X u <> 0 \/ Y u <> 0 -> Unit u = Scaled u (1 / Len u).
Proof.
  intros H; unfold Unit.
  destruct (Reqb (X u) 0) eqn:EX; [|reflexivity].
  destruct (Reqb (Y u) 0) eqn:EY; [|reflexivity].
  apply Reqb_true in EX, EY; tauto.
Qed.

(** In exact arithmetic the unit vector of a non-zero vector has length
    one. *)
Lemma Len_Unit_nonzero (u : Vec) : X u <> 0 \/ Y u <> 0 -> Len (Unit u) = 1.
Proof.
  intros H; pose proof (Len_pos u H) as Hp.
  rewrite (Unit_nonzero u H), Len_Scaled, Rabs_pos_eq.
  - field; lra.
  - apply Rlt_le; unfold Rdiv; rewrite Rmult_1_l; apply Rinv_0_lt_compat; exact Hp.
Qed.

Lemma Len_pos_nonzero (u : Vec) : 0 < Len u -> X u <> 0 \/ Y u <> 0.
Proof.
  intros H; destruct (Req_dec_T (X u) 0) as [EX|NX]; [|left; exact NX].
  destruct (Req_dec_T (Y u) 0) as [EY|NY]; [|right; exact NY].
  exfalso; destruct u as [x y]; cbn in EX, EY; subst.
  rewrite Len_ZV in H; lra.
Qed.

(** ** BallPush: [Step] and validation *)

Lemma BallPush_stepLocals_valid (e : BallPush.BallPushEnv) (a0 a1 : R) :
  -1 <= a0 <= 1 -> -1 <= a1 <= 1 ->
  BallPush.stepLocals e [a0; a1] = Ok (BallPush.stepPhysics e a0 a1).
Proof.
  intros H0 H1; unfold BallPush.stepLocals.
  change 2%Z with (Z.of_nat 2).
  assert (Hv : validAction 2 [a0; a1]).
  { split; [reflexivity | repeat (constructor; [lra|]); constructor]. }
  apply validateAction_ok in Hv; rewrite Hv; reflexivity.
Qed.

Lemma BallPush_stepLocals_is_ok (e : BallPush.BallPushEnv) (action : list R) :
  is_ok (BallPush.stepLocals e action) = true <-> validAction 2 action.
Proof.
  unfold BallPush.stepLocals.
  change 2%Z with (Z.of_nat 2).
  destruct (validateAction_cases action 2) as [[Hv ->]|[Hn [msg ->]]]; cbn [bind].
  - destruct Hv as [Hlen Hr].
    destruct action as [|a0 [|a1 [|b rest]]]; try discriminate Hlen.
    cbn; split; [intros _; split; assumption | reflexivity].
  - cbn; split; [discriminate | tauto].
Qed.

Lemma BallPush_Step_is_ok (e : BallPush.BallPushEnv) (action : list R) :
  is_ok (BallPush.Step e action) = true <-> validAction 2 action.
Proof.
  rewrite <- (BallPush_stepLocals_is_ok e action); unfold BallPush.Step.
  destruct (BallPush.stepLocals e action); cbn; tauto.
Qed.

Lemma BallPush_Step_valid (e : BallPush.BallPushEnv) (a0 a1 : R) :
  -1 <= a0 <= 1 -> -1 <= a1 <= 1 ->
  let l := BallPush.stepPhysics e a0 a1 in
  BallPush.Step e [a0; a1] =
  Ok (BallPush.envAfter l,
      {| Observation := BallPush.getObservation (BallPush.envAfter l);
         Reward := BallPush.stepReward l;
         Terminated := false;
         Info := [] |}).
Proof.
  intros H0 H1 l; unfold BallPush.Step.
  rewrite (BallPush_stepLocals_valid e a0 a1 H0 H1); reflexivity.
Qed.

(** ** Walker: [Step] indexes the action and nothing more *)

Lemma Walker_Step_is_ok (E : Walker.Engine) (e : Walker.WalkerEnv E) (action : list R) :
  is_ok (Walker.Step e action) = true <-> (4 <= List.length action)%nat.
Proof.
  unfold Walker.Step.
  destruct action as [|a0 [|a1 [|a2 [|a3 rest]]]]; cbn; split;
    intros H; try discriminate; try reflexivity; try lia.
Qed.

(** C1 (code at the failing inputs): [CartPoleEnv.Step] and
    [BallPushEnv.Step] return exactly on the actions of the right length
    with every component in [[-1, 1]] and panic on every other action, with
    a message of [validateAction]; [WalkerEnv.Step] never validates: it
    returns on every action of length at least four, among them
    [(2, 0, 0, 0)], whose first component is outside [[-1, 1]], and the
    five-component zero action. *)
Theorem Step_action_validation :
  (forall e action,
     is_ok (CartPole.Step e action) = true <-> validAction 1 action) /\
  (forall e action,
     is_ok (BallPush.Step e action) = true <-> validAction 2 action) /\
  (forall e action,
     ~ validAction 1 action ->
     CartPole.Step e action = Panic "Invalid action: length mismatch" \/
     CartPole.Step e action = Panic "Invalid action: out of range -1 to 1") /\
  (forall e action,
     ~ validAction 2 action ->
     BallPush.Step e action = Panic "Invalid action: length mismatch" \/
     BallPush.Step e action = Panic "Invalid action: out of range -1 to 1") /\
  (forall (E : Walker.Engine) (e : Walker.WalkerEnv E) action,
     is_ok (Walker.Step e action) = true <-> (4 <= List.length action)%nat) /\
  (forall (E : Walker.Engine) (e : Walker.WalkerEnv E),
     Walker.ActionLength e = 4%Z /\
     ~ validAction 4 [2; 0; 0; 0] /\
     is_ok (Walker.Step e [2; 0; 0; 0]) = true /\
     ~ validAction 4 [0; 0; 0; 0; 0] /\
     is_ok (Walker.Step e [0; 0; 0; 0; 0]) = true).
Proof.
  split; [exact CartPole_Step_is_ok |].
  split; [exact BallPush_Step_is_ok |].
  split.
  { intros e action Hn; unfold CartPole.Step, CartPole.ActionLength.
    change 1%Z with (Z.of_nat 1).
    destruct (validateAction_invalid action 1 Hn) as [-> | ->];
      [left | right]; reflexivity. }
  split.
  { intros e action Hn; unfold BallPush.Step, BallPush.stepLocals.
    change 2%Z with (Z.of_nat 2).
    destruct (validateAction_invalid action 2 Hn) as [-> | ->];
      [left | right]; reflexivity. }
  split; [exact Walker_Step_is_ok |].
  intros E e; repeat split.
  - intros [_ H]; apply Forall_inv in H; lra.
  - intros [H _]; discriminate H.
Qed.

(** ** BallPush: the control force *)

Lemma controlVecOf_nonzero (a0 a1 : R) :
  a0 <> 0 \/ a1 <> 0 ->
  BallPush.controlVecOf a0 a1 = Scaled (V a0 a1) (1 / Len (V a0 a1)).
Proof.
  intros H; unfold BallPush.controlVecOf; cbn zeta.
  pose proof (Len_pos (V a0 a1) H) as Hp.
  destruct (Rgtb (Len (V a0 a1)) 0) eqn:E.
  - apply Unit_nonzero; exact H.
  - apply Rgtb_false in E; lra.
Qed.

Lemma controlVecOf_zero : BallPush.controlVecOf 0 0 = V 0 0.
Proof.
  unfold BallPush.controlVecOf; cbn zeta; rewrite Len_ZV.
  destruct (Rgtb 0 0) eqn:E; [apply Rgtb_true in E; lra | reflexivity].
Qed.

(** C3, as stated, fails: under the default settings the valid action
    [(0.5, 0)] has magnitude 0.5, and the control force is [(20, 0)], the
    unit vector times [AgentAcceleration], not [(10, 0)]. *)
Lemma control_force_half_action_rescaled :
  let s := BallPush.DefaultBallPushSettings in
  validAction 2 [0.5; 0] /\
  0 < Len (V 0.5 0) <= 1 /\
  BallPush.agentControlForceOf s 0.5 0 = V 20 0 /\
  Scaled (V 0.5 0) (BallPush.AgentAcceleration s) = V 10 0 /\
  BallPush.agentControlForceOf s 0.5 0
    <> Scaled (V 0.5 0) (BallPush.AgentAcceleration s).
Proof.
  cbn zeta.
  assert (HL : Len (V 0.5 0) = 0.5) by (rewrite Len_axis_X; apply Rabs_pos_eq; lra).
  assert (HF : BallPush.agentControlForceOf BallPush.DefaultBallPushSettings 0.5 0 = V 20 0).
  { unfold BallPush.agentControlForceOf.
    rewrite controlVecOf_nonzero by (left; lra).
    rewrite HL; unfold Scaled; cbn; apply Vec_eq; lra. }
  split; [split; [reflexivity | repeat (constructor; [lra|]); constructor] |].
  split; [rewrite HL; lra |].
  split; [exact HF |].
  split; [unfold Scaled; cbn; apply Vec_eq; lra |].
  rewrite HF; apply Vec_neq_X; cbn; lra.
Qed.

(** C3, amended: [Step] normalises the action whenever its magnitude is
    greater than zero.  For every action other than [(0, 0)] the control
    force is the unit vector of [(a0, a1)], that is [(a0, a1)] scaled by
    [1 / Len (a0, a1)], times [AgentAcceleration]; in exact arithmetic its
    magnitude is therefore [|AgentAcceleration|] whatever the magnitude of
    the action.  For [(0, 0)] the control force is zero.  That force, less
    the agent's drag, is what [Step] accumulates on the agent. *)
Theorem control_force_is_unit_direction (s : BallPush.BallPushSettings) (a0 a1 : R) :
  (a0 <> 0 \/ a1 <> 0 ->
   BallPush.agentControlForceOf s a0 a1
     = Scaled (Scaled (V a0 a1) (1 / Len (V a0 a1))) (BallPush.AgentAcceleration s) /\
   Len (BallPush.agentControlForceOf s a0 a1) = Rabs (BallPush.AgentAcceleration s)) /\
  BallPush.agentControlForceOf s 0 0 = ZV /\
  (forall e,
     BallPush.Settings e = s ->
     currentForce (BallPush.Agent (BallPush.applyForces e a0 a1))
       = Add (currentForce (BallPush.Agent e))
             (Sub (BallPush.agentControlForceOf s a0 a1)
                  (Scaled (Velocity (BallPush.Agent e)) (BallPush.AgentDrag s)))).
Proof.
  split; [|split].
  - intros H; unfold BallPush.agentControlForceOf.
    rewrite controlVecOf_nonzero by exact H.
    split; [reflexivity |].
    rewrite <- (Unit_nonzero (V a0 a1)) by exact H.
    rewrite Len_Scaled, Len_Unit_nonzero by exact H; ring.
  - unfold BallPush.agentControlForceOf; rewrite controlVecOf_zero.
    unfold Scaled, ZV; cbn; apply Vec_eq; ring.
  - intros e <-; reflexivity.
Qed.

Lemma control_force_is_unit_direction_witness :
  let s := BallPush.DefaultBallPushSettings in
  BallPush.agentControlForceOf s 0.5 0
    = Scaled (Scaled (V 0.5 0) (1 / Len (V 0.5 0))) (BallPush.AgentAcceleration s) /\
  Len (BallPush.agentControlForceOf s 0.5 0) = Rabs (BallPush.AgentAcceleration s).
Proof.
  intros s.
  apply (proj1 (control_force_is_unit_direction s 0.5 0)).
  left; lra.
Defined.

(** ** BallPush: containment *)

Lemma containAgent_noop (e : BallPush.BallPushEnv) :
  Len (Position (BallPush.Agent e)) + BallPush.AgentRadius (BallPush.Settings e)
    - BallPush.BoundaryRadius (BallPush.Settings e) <= 0 ->
  BallPush.containAgent e = e.
Proof.
  intros H; unfold BallPush.containAgent; cbn zeta.
  apply Rgtb_false in H; rewrite H; reflexivity.
Qed.

Lemma resolveCollision_noop (e : BallPush.BallPushEnv) :
  BallPush.ballOverlapOf e <= 0 -> BallPush.resolveCollision e = (e, false).
Proof.
  intros H; unfold BallPush.resolveCollision; cbn zeta.
  apply Rgtb_false in H; rewrite H; reflexivity.
Qed.

Lemma containBall_noop (e : BallPush.BallPushEnv) :
  Len (Position (BallPush.Ball e)) + BallPush.BallRadius (BallPush.Settings e)
    - BallPush.BoundaryRadius (BallPush.Settings e) <= 0 ->
  BallPush.containBall e = e.
Proof.
  intros H; unfold BallPush.containBall; cbn zeta.
  apply Rgtb_false in H; rewrite H; reflexivity.
Qed.

Lemma checkCentered_noop (e : BallPush.BallPushEnv) :
  BallPush.TargetRadius (BallPush.Settings e) - BallPush.BallRadius (BallPush.Settings e)
    <= Len (Position (BallPush.Ball e)) ->
  BallPush.checkCentered e = (e, false).
Proof.
  intros H; unfold BallPush.checkCentered, BallPush.BallInCenter; cbn zeta.
  apply Rltb_false in H; rewrite H; reflexivity.
Qed.

(** The radial clamp puts a particle that is off the center on the circle
    of the given radius. *)
Lemma Len_radial_clamp (pos : Vec) (r : R) :
  0 < Len pos -> 0 <= r -> Len (Scaled (Unit pos) r) = r.
Proof.
  intros Hp H.
  rewrite Len_Scaled, Len_Unit_nonzero, Rabs_pos_eq
    by (try exact H; apply Len_pos_nonzero, Hp).
  ring.
Qed.

Lemma containAgent_bound (e : BallPush.BallPushEnv) :
  let s := BallPush.Settings e in
  BallPush.AgentRadius s <= BallPush.BoundaryRadius s ->
  Len (Position (BallPush.Agent (BallPush.containAgent e)))
    <= BallPush.BoundaryRadius s - BallPush.AgentRadius s.
Proof.
  cbn zeta; intros H; unfold BallPush.containAgent; cbn zeta.
  case_cmps; cbn [BallPush.Agent Position SlideToPosition currentPosition].
  - unfold Position in *; rewrite Len_radial_clamp; lra.
  - unfold Position in *; lra.
Qed.

Lemma containBall_bound (e : BallPush.BallPushEnv) :
  let s := BallPush.Settings e in
  BallPush.BallRadius s <= BallPush.BoundaryRadius s ->
  Len (Position (BallPush.Ball (BallPush.containBall e)))
    <= BallPush.BoundaryRadius s - BallPush.BallRadius s.
Proof.
  cbn zeta; intros H; unfold BallPush.containBall; cbn zeta.
  case_cmps; cbn [BallPush.Ball Position SlideToPosition currentPosition].
  - unfold Position in *; rewrite Len_radial_clamp; lra.
  - unfold Position in *; lra.
Qed.

Lemma containBall_frame (e : BallPush.BallPushEnv) :
  BallPush.Agent (BallPush.containBall e) = BallPush.Agent e /\
  BallPush.Settings (BallPush.containBall e) = BallPush.Settings e /\
  BallPush.HasTouchedBall (BallPush.containBall e) = BallPush.HasTouchedBall e /\
  BallPush.HasCenteredBall (BallPush.containBall e) = BallPush.HasCenteredBall e.
Proof.
  unfold BallPush.containBall; cbn zeta.
  destruct (Rgtb _ 0); repeat split.
Qed.

Lemma containAgent_frame (e : BallPush.BallPushEnv) :
  BallPush.Ball (BallPush.containAgent e) = BallPush.Ball e /\
  BallPush.Settings (BallPush.containAgent e) = BallPush.Settings e /\
  BallPush.HasTouchedBall (BallPush.containAgent e) = BallPush.HasTouchedBall e /\
  BallPush.HasCenteredBall (BallPush.containAgent e) = BallPush.HasCenteredBall e.
Proof.
  unfold BallPush.containAgent; cbn zeta.
  destruct (Rgtb _ 0); repeat split.
Qed.

Lemma resolveCollision_frame (e : BallPush.BallPushEnv) :
  BallPush.Settings (fst (BallPush.resolveCollision e)) = BallPush.Settings e /\
  BallPush.HasCenteredBall (fst (BallPush.resolveCollision e)) = BallPush.HasCenteredBall e.
Proof.
  unfold BallPush.resolveCollision; cbn zeta.
  destruct (Rgtb _ 0); repeat split.
Qed.

Lemma checkCentered_frame (e : BallPush.BallPushEnv) :
  BallPush.Agent (fst (BallPush.checkCentered e)) = BallPush.Agent e /\
  BallPush.Ball (fst (BallPush.checkCentered e)) = BallPush.Ball e /\
  BallPush.Settings (fst (BallPush.checkCentered e)) = BallPush.Settings e /\
  BallPush.HasTouchedBall (fst (BallPush.checkCentered e)) = BallPush.HasTouchedBall e.
Proof.
  unfold BallPush.checkCentered; cbn zeta.
  destruct (BallPush.BallInCenter e && negb (BallPush.HasCenteredBall e)); repeat split.
Qed.

(** [beforeIntegrate] as the composition of its stages, without the
    pattern-matching lets. *)
Lemma beforeIntegrate_unfold (e : BallPush.BallPushEnv) (a0 a1 : R) :
  let e1 := BallPush.containAgent (BallPush.applyForces e a0 a1) in
  let e2 := BallPush.containBall (fst (BallPush.resolveCollision e1)) in
  BallPush.beforeIntegrate e a0 a1 =
  (fst (BallPush.checkCentered e2),
   snd (BallPush.resolveCollision e1),
   snd (BallPush.checkCentered e2)).
Proof.
  cbn zeta; unfold BallPush.beforeIntegrate.
  destruct (BallPush.resolveCollision _) as [e1 t]; cbn [fst snd].
  destruct (BallPush.checkCentered _) as [e2 c]; reflexivity.
Qed.

Lemma stepPhysics_unfold (e : BallPush.BallPushEnv) (a0 a1 : R) :
  let pre := BallPush.beforeIntegrate e a0 a1 in
  BallPush.stepPhysics e a0 a1 =
  {| BallPush.envAfter := BallPush.integrate (fst (fst pre));
     BallPush.justTouchedBall := snd (fst pre);
     BallPush.justCenteredBall := snd pre |}.
Proof.
  cbn zeta; unfold BallPush.stepPhysics.
  destruct (BallPush.beforeIntegrate e a0 a1) as [[e1 t] c]; reflexivity.
Qed.

(** C2, amended: for radii no larger than the boundary radius, [Step] on a
    valid action returns, and the positions it integrates from respect the
    limits: the ball's position just before integration (its
    [previousPosition] once [Step] has returned) is within
    [BoundaryRadius - BallRadius] of the center, and so is the agent's,
    within [BoundaryRadius - AgentRadius], when no agent-ball overlap was
    resolved in that step (exact arithmetic).  Nothing is claimed of the
    positions after integration. *)
Theorem contained_before_integration (e : BallPush.BallPushEnv) (a0 a1 : R) :
  let s := BallPush.Settings e in
  -1 <= a0 <= 1 -> -1 <= a1 <= 1 ->
  BallPush.AgentRadius s <= BallPush.BoundaryRadius s ->
  BallPush.BallRadius s <= BallPush.BoundaryRadius s ->
  exists e' d,
    BallPush.Step e [a0; a1] = Ok (e', d) /\
    previousPosition (BallPush.Ball e')
      = Position (BallPush.Ball (fst (fst (BallPush.beforeIntegrate e a0 a1)))) /\
    previousPosition (BallPush.Agent e')
      = Position (BallPush.Agent (fst (fst (BallPush.beforeIntegrate e a0 a1)))) /\
    Len (previousPosition (BallPush.Ball e'))
      <= BallPush.BoundaryRadius s - BallPush.BallRadius s /\
    (BallPush.ballOverlapOf (BallPush.containAgent (BallPush.applyForces e a0 a1)) <= 0 ->
     Len (previousPosition (BallPush.Agent e'))
       <= BallPush.BoundaryRadius s - BallPush.AgentRadius s).
Proof.
  intros s H0 H1 HA HB.
  rewrite (BallPush_Step_valid e a0 a1 H0 H1); cbn zeta.
  eexists; eexists; split; [reflexivity |].
  rewrite stepPhysics_unfold; cbn zeta; cbn [BallPush.envAfter].
  rewrite beforeIntegrate_unfold; cbn zeta; cbn [fst].
  set (e1 := BallPush.containAgent (BallPush.applyForces e a0 a1)).
  set (e2 := fst (BallPush.resolveCollision e1)).
  destruct (checkCentered_frame (BallPush.containBall e2)) as (CA & CB & _).
  cbn [BallPush.integrate BallPush.Ball BallPush.Agent StepParticle previousPosition].
  rewrite CA, CB.
  assert (Hs1 : BallPush.Settings e1 = s).
  { unfold e1; destruct (containAgent_frame (BallPush.applyForces e a0 a1)) as (_ & -> & _).
    reflexivity. }
  assert (Hs2 : BallPush.Settings e2 = s).
  { unfold e2; destruct (resolveCollision_frame e1) as (-> & _); exact Hs1. }
  split; [reflexivity |]. split; [reflexivity |]. split.
  - pose proof (containBall_bound e2) as Hb; cbn zeta in Hb.
    rewrite Hs2 in Hb; apply Hb, HB.
  - intros Hno.
    destruct (containBall_frame e2) as (-> & _).
    unfold e2; rewrite (resolveCollision_noop e1 Hno); cbn [fst].
    pose proof (containAgent_bound (BallPush.applyForces e a0 a1)) as Ha.
    cbn zeta in Ha; apply Ha, HA.
Qed.

Lemma contained_before_integration_witness :
  let e := {| BallPush.Agent := NewVerletParticle (V 0 (3 / 2)) 1 (1 / 2);
              BallPush.Ball := NewVerletParticle (V 0 (- 3 / 2)) 1 (1 / 2);
              BallPush.HasTouchedBall := false;
              BallPush.HasCenteredBall := false;
              BallPush.Settings := smallArenaSettings |} in
  exists e' d,
    BallPush.Step e [0; 1] = Ok (e', d) /\
    previousPosition (BallPush.Ball e')
      = Position (BallPush.Ball (fst (fst (BallPush.beforeIntegrate e 0 1)))) /\
    previousPosition (BallPush.Agent e')
      = Position (BallPush.Agent (fst (fst (BallPush.beforeIntegrate e 0 1)))) /\
    Len (previousPosition (BallPush.Ball e')) <= 4 - 1 /\
    (BallPush.ballOverlapOf (BallPush.containAgent (BallPush.applyForces e 0 1)) <= 0 ->
     Len (previousPosition (BallPush.Agent e')) <= 4 - 1).
Proof.
  intros e.
  apply (contained_before_integration e 0 1); cbn; lra.
Defined.

(** A freshly constructed particle that [Reset] has placed is a fresh
    particle at the new position. *)
Lemma Reset_places_fresh_particle (pos : Vec) (m h : R) :
  SetVelocity (SlideToPosition (NewVerletParticle ZV m h) pos) ZV
  = NewVerletParticle pos m h.
Proof.
  destruct pos as [x y]; unfold NewVerletParticle, SetVelocity, SlideToPosition; cbn.
  f_equal; vsimpl; apply Vec_eq; ring.
Qed.

Lemma Rotated_Y_axis_zero (r : R) : Rotated (V 0 r) (0 * 2 * PI) = V 0 r.
Proof.
  unfold Rotated; cbn [X Y].
  replace (0 * 2 * PI) with 0 by ring.
  rewrite sin_0, cos_0; apply Vec_eq; ring.
Qed.

Lemma Rotated_Y_axis_half (r : R) : Rotated (V 0 r) (1 / 2 * 2 * PI) = V 0 (- r).
Proof.
  unfold Rotated; cbn [X Y].
  replace (1 / 2 * 2 * PI) with PI by field.
  rewrite sin_PI, cos_PI; apply Vec_eq; ring.
Qed.

Lemma NewBallPushEnv_on_Y_axis (s : BallPush.BallPushSettings) (r1 r2 : R) :
  BallPush.NewBallPushEnv s r1 0 r2 (1 / 2) =
  {| BallPush.Agent :=
       NewVerletParticle (V 0 (r1 * BallPush.BoundaryRadius s * 0.75)) 1
         (BallPush.DeltaTime s);
     BallPush.Ball :=
       NewVerletParticle (V 0 (- (r2 * BallPush.BoundaryRadius s * 0.75))) 1
         (BallPush.DeltaTime s);
     BallPush.HasTouchedBall := false;
     BallPush.HasCenteredBall := false;
     BallPush.Settings := s |}.
Proof.
  unfold BallPush.NewBallPushEnv, BallPush.Reset; cbn [fst BallPush.Settings
    BallPush.Agent BallPush.Ball].
  rewrite Rotated_Y_axis_zero, Rotated_Y_axis_half, !Reset_places_fresh_particle.
  reflexivity.
Qed.

Lemma agentControlForceOf_up (s : BallPush.BallPushSettings) :
  BallPush.agentControlForceOf s 0 1 = V 0 (BallPush.AgentAcceleration s).
Proof.
  unfold BallPush.agentControlForceOf.
  rewrite controlVecOf_nonzero by (right; lra).
  rewrite Len_axis_Y, Rabs_R1; unfold Scaled; cbn; apply Vec_eq; field.
Qed.

(** C2, as stated, fails: in the small arena the environment constructed
    with the draws (1/2, 0, 1/2, 1/2) has the agent at (0, 1.5) and the ball
    at (0, -1.5); one [Step] with the valid action (0, 1) integrates the
    agent to (0, 3.5), farther from the center than
    [BoundaryRadius - AgentRadius = 3]. *)
Lemma agent_outside_boundary_after_Step :
  let s := smallArenaSettings in
  let e := BallPush.NewBallPushEnv s (1 / 2) 0 (1 / 2) (1 / 2) in
  BallPush.Reachable s e /\
  validAction 2 [0; 1] /\
  exists e' d,
    BallPush.Step e [0; 1] = Ok (e', d) /\
    Position (BallPush.Agent e') = V 0 (7 / 2) /\
    Len (Position (BallPush.Agent e'))
      > BallPush.BoundaryRadius s - BallPush.AgentRadius s.
Proof.
  intros s e.
  split; [constructor; lra |].
  split; [split; [reflexivity | repeat (constructor; [lra|]); constructor] |].
  rewrite (BallPush_Step_valid e 0 1) by lra; cbn zeta.
  eexists; eexists; split; [reflexivity |].
  assert (HP : Position (BallPush.Agent (BallPush.envAfter (BallPush.stepPhysics e 0 1)))
               = V 0 (7 / 2)).
  { rewrite stepPhysics_unfold; cbn zeta; cbn [BallPush.envAfter].
    rewrite beforeIntegrate_unfold; cbn zeta; cbn [fst].
    unfold e; rewrite NewBallPushEnv_on_Y_axis.
    rewrite containAgent_noop.
    2:{ cbn; rewrite Len_axis_Y, Rabs_pos_eq; lra. }
    rewrite resolveCollision_noop.
    2:{ unfold BallPush.ballOverlapOf; cbn; unfold Sub; cbn [X Y].
        replace (0 - 0) with 0 by ring.
        rewrite Len_axis_Y, Rabs_pos_eq; lra. }
    cbn [fst].
    rewrite containBall_noop.
    2:{ cbn; rewrite Len_axis_Y, Rabs_left; lra. }
    rewrite checkCentered_noop.
    2:{ cbn; rewrite Len_axis_Y, Rabs_left; lra. }
    cbn [fst BallPush.integrate BallPush.Agent BallPush.applyForces].
    rewrite agentControlForceOf_up.
    cbn; vsimpl; apply Vec_eq; lra. }
  split; [exact HP |].
  rewrite HP, Len_axis_Y, Rabs_pos_eq; cbn; lra.
Qed.

(** ** BallPush: one-shot bonuses *)

(** The returned reward, as the two gated bonuses plus the shaping terms. *)
Lemma stepReward_bonuses (l : BallPush.StepLocals) :
  let e := BallPush.envAfter l in
  let s := BallPush.Settings e in
  BallPush.stepReward l =
  (if BallPush.justTouchedBall l then BallPush.TouchBallReward s else 0)
  + (if BallPush.justCenteredBall l then BallPush.PlaceInCenterReward s else 0)
  + BallPush.moveToCenterTerm e
  + (if negb (BallPush.HasTouchedBall e) then BallPush.moveToBallTerm e else 0).
Proof.
  cbn zeta; unfold BallPush.stepReward; cbn zeta.
  destruct (BallPush.justTouchedBall l), (BallPush.justCenteredBall l),
    (BallPush.HasTouchedBall (BallPush.envAfter l)); cbn [negb]; lra.
Qed.

(** The reward [Step] returns is [stepReward] of the locals of that step. *)
Lemma BallPush_Step_reward (e : BallPush.BallPushEnv) (action : list R)
  (l : BallPush.StepLocals) :
  BallPush.stepLocals e action = Ok l ->
  exists d,
    BallPush.Step e action = Ok (BallPush.envAfter l, d) /\
    Reward d = BallPush.stepReward l /\ Terminated d = false.
Proof.
  intros H; unfold BallPush.Step; rewrite H; cbn [bind].
  eexists; split; [reflexivity | split; reflexivity].
Qed.

(** How one step moves the two episode flags, and when it raises the two
    locals. *)
Lemma stepPhysics_flags (e : BallPush.BallPushEnv) (a0 a1 : R) :
  let l := BallPush.stepPhysics e a0 a1 in
  let e1 := BallPush.containAgent (BallPush.applyForces e a0 a1) in
  let e2 := BallPush.containBall (fst (BallPush.resolveCollision e1)) in
  BallPush.justTouchedBall l
    = Rgtb (BallPush.ballOverlapOf e1) 0 && negb (BallPush.HasTouchedBall e) /\
  BallPush.HasTouchedBall (BallPush.envAfter l)
    = BallPush.HasTouchedBall e || Rgtb (BallPush.ballOverlapOf e1) 0 /\
  BallPush.justCenteredBall l
    = BallPush.BallInCenter e2 && negb (BallPush.HasCenteredBall e) /\
  BallPush.HasCenteredBall (BallPush.envAfter l)
    = BallPush.HasCenteredBall e || BallPush.BallInCenter e2.
Proof.
  cbn zeta; rewrite stepPhysics_unfold; cbn zeta.
  cbn [BallPush.envAfter BallPush.justTouchedBall BallPush.justCenteredBall].
  rewrite beforeIntegrate_unfold; cbn zeta; cbn [fst snd].
  set (e1 := BallPush.containAgent (BallPush.applyForces e a0 a1)).
  assert (HT1 : BallPush.HasTouchedBall e1 = BallPush.HasTouchedBall e).
  { unfold e1; destruct (containAgent_frame (BallPush.applyForces e a0 a1))
      as (_ & _ & -> & _); reflexivity. }
  assert (HC1 : BallPush.HasCenteredBall e1 = BallPush.HasCenteredBall e).
  { unfold e1; destruct (containAgent_frame (BallPush.applyForces e a0 a1))
      as (_ & _ & _ & ->); reflexivity. }
  clearbody e1.
  set (e2 := BallPush.containBall (fst (BallPush.resolveCollision e1))).
  assert (HC2 : BallPush.HasCenteredBall e2 = BallPush.HasCenteredBall e).
  { unfold e2; destruct (containBall_frame (fst (BallPush.resolveCollision e1)))
      as (_ & _ & _ & ->).
    destruct (resolveCollision_frame e1) as (_ & ->); exact HC1. }
  assert (HT2 : BallPush.HasTouchedBall e2
                = BallPush.HasTouchedBall e || Rgtb (BallPush.ballOverlapOf e1) 0).
  { unfold e2; destruct (containBall_frame (fst (BallPush.resolveCollision e1)))
      as (_ & _ & -> & _).
    unfold BallPush.resolveCollision; cbn zeta; rewrite HT1.
    destruct (Rgtb (BallPush.ballOverlapOf e1) 0), (BallPush.HasTouchedBall e) eqn:Eh;
      cbn [fst negb BallPush.HasTouchedBall orb]; rewrite ?HT1; reflexivity. }
  clearbody e2.
  assert (HJ : snd (BallPush.resolveCollision e1)
               = Rgtb (BallPush.ballOverlapOf e1) 0 && negb (BallPush.HasTouchedBall e)).
  { unfold BallPush.resolveCollision; cbn zeta; rewrite HT1.
    destruct (Rgtb (BallPush.ballOverlapOf e1) 0), (BallPush.HasTouchedBall e);
      reflexivity. }
  cbn [BallPush.integrate BallPush.HasTouchedBall BallPush.HasCenteredBall].
  destruct (checkCentered_frame e2) as (_ & _ & _ & ->).
  unfold BallPush.checkCentered; cbn zeta; rewrite HC2, HT2, HJ.
  destruct (BallPush.BallInCenter e2), (BallPush.HasCenteredBall e);
    cbn [andb orb negb fst snd BallPush.HasCenteredBall]; rewrite ?HC2; repeat split.
Qed.

Lemma Episode_valid (actions : list (list R)) :
  Forall (validAction 2) actions ->
  forall e, exists ls,
    BallPush.Episode e actions = Ok ls /\ List.length ls = List.length actions.
Proof.
  induction 1 as [|action rest Hact _ IH]; intros e.
  - exists []; split; reflexivity.
  - cbn [BallPush.Episode].
    apply (BallPush_stepLocals_is_ok e) in Hact.
    destruct (BallPush.stepLocals e action) as [l|msg]; [|discriminate Hact].
    cbn [bind]; destruct (IH (BallPush.envAfter l)) as (ls & -> & HL).
    exists (l :: ls); split; [reflexivity | cbn; rewrite HL; reflexivity].
Qed.

Lemma stepLocals_inv (e : BallPush.BallPushEnv) (action : list R) (l : BallPush.StepLocals) :
  BallPush.stepLocals e action = Ok l ->
  exists a0 a1, action = [a0; a1] /\ l = BallPush.stepPhysics e a0 a1.
Proof.
  intros H.
  assert (Hok : is_ok (BallPush.stepLocals e action) = true) by (rewrite H; reflexivity).
  apply BallPush_stepLocals_is_ok in Hok; destruct Hok as [Hlen Hr].
  destruct action as [|a0 [|a1 [|b rest]]]; try discriminate Hlen.
  exists a0, a1; split; [reflexivity |].
  rewrite BallPush_stepLocals_valid in H.
  - congruence.
  - apply Forall_inv in Hr; exact Hr.
  - apply Forall_inv_tail, Forall_inv in Hr; exact Hr.
Qed.

(** Over an episode a flag that is up stays up, and a step raises its local
    only if the flag was down: each local is raised at most once, and never
    if the flag was already up at the start. *)
Lemma Episode_one_shot (actions : list (list R)) :
  forall e ls,
    BallPush.Episode e actions = Ok ls ->
    (List.length (filter BallPush.justTouchedBall ls)
       <= (if BallPush.HasTouchedBall e then 0 else 1))%nat /\
    (List.length (filter BallPush.justCenteredBall ls)
       <= (if BallPush.HasCenteredBall e then 0 else 1))%nat.
Proof.
  induction actions as [|action rest IH]; intros e ls H; cbn [BallPush.Episode] in H.
  - inversion H; subst; cbn.
    destruct (BallPush.HasTouchedBall e), (BallPush.HasCenteredBall e); split; lia.
  - destruct (BallPush.stepLocals e action) as [l|msg] eqn:El; [|discriminate H].
    cbn [bind] in H.
    destruct (BallPush.Episode (BallPush.envAfter l) rest) as [ls'|msg] eqn:Er;
      [|discriminate H].
    cbn [bind] in H; inversion H; subst ls; clear H.
    destruct (IH _ _ Er) as [IT IC].
    destruct (stepLocals_inv _ _ _ El) as (a0 & a1 & _ & ->).
    destruct (stepPhysics_flags e a0 a1) as (JT & HT & JC & HC); cbn zeta in *.
    cbn [filter]; rewrite JT, JC; rewrite HT in IT; rewrite HC in IC.
    split.
    + destruct (BallPush.HasTouchedBall e), (Rgtb _ 0); cbn in *; lia.
    + destruct (BallPush.HasCenteredBall e), (BallPush.BallInCenter _); cbn in *; lia.
Qed.

(** C9: in an episode (consecutive [Step] calls on valid actions, no
    [Reset] in between) every step returns, its reward is the sum of the
    touch bonus when [justTouchedBall], the center bonus when
    [justCenteredBall], and the shaping terms; [justTouchedBall] holds in at
    most one step and [justCenteredBall] in at most one step.  [Reset]
    lowers both flags, and a step from lowered flags raises each local
    exactly when its condition (overlap, ball in the center) holds. *)
Theorem one_shot_bonuses_per_episode :
  (forall e actions,
     Forall (validAction 2) actions ->
     exists ls,
       BallPush.Episode e actions = Ok ls /\
       List.length ls = List.length actions /\
       Forall (fun l =>
                 BallPush.stepReward l =
                 (if BallPush.justTouchedBall l
                  then BallPush.TouchBallReward (BallPush.Settings (BallPush.envAfter l))
                  else 0)
                 + (if BallPush.justCenteredBall l
                    then BallPush.PlaceInCenterReward (BallPush.Settings (BallPush.envAfter l))
                    else 0)
                 + BallPush.moveToCenterTerm (BallPush.envAfter l)
                 + (if negb (BallPush.HasTouchedBall (BallPush.envAfter l))
                    then BallPush.moveToBallTerm (BallPush.envAfter l) else 0)) ls /\
       (List.length (filter BallPush.justTouchedBall ls) <= 1)%nat /\
       (List.length (filter BallPush.justCenteredBall ls) <= 1)%nat) /\
  (forall e r1 a1 r2 a2,
     BallPush.HasTouchedBall (fst (BallPush.Reset e r1 a1 r2 a2)) = false /\
     BallPush.HasCenteredBall (fst (BallPush.Reset e r1 a1 r2 a2)) = false) /\
  (forall e a0 a1,
     let e1 := BallPush.containAgent (BallPush.applyForces e a0 a1) in
     let e2 := BallPush.containBall (fst (BallPush.resolveCollision e1)) in
     (BallPush.HasTouchedBall e = false ->
      BallPush.justTouchedBall (BallPush.stepPhysics e a0 a1)
        = Rgtb (BallPush.ballOverlapOf e1) 0) /\
     (BallPush.HasCenteredBall e = false ->
      BallPush.justCenteredBall (BallPush.stepPhysics e a0 a1)
        = BallPush.BallInCenter e2)).
Proof.
  split; [|split].
  - intros e actions Hall.
    destruct (Episode_valid actions Hall e) as (ls & HE & HL).
    exists ls; split; [exact HE |]; split; [exact HL |]; split.
    + apply Forall_forall; intros l _; apply stepReward_bonuses.
    + destruct (Episode_one_shot actions e ls HE) as [HT HC].
      destruct (BallPush.HasTouchedBall e), (BallPush.HasCenteredBall e); split; lia.
  - intros; split; reflexivity.
  - intros e a0 a1 e1 e2.
    destruct (stepPhysics_flags e a0 a1) as (JT & _ & JC & _); cbn zeta in JT, JC.
    fold e1 in JT; fold e1 e2 in JC.
    split; intros H; [rewrite JT | rewrite JC]; rewrite H; cbn [negb];
      apply andb_true_r.
Qed.

Lemma one_shot_bonuses_per_episode_witness :
  let e := {| BallPush.Agent := NewVerletParticle (V 0 (3 / 2)) 1 (1 / 2);
              BallPush.Ball := NewVerletParticle (V 0 (- 3 / 2)) 1 (1 / 2);
              BallPush.HasTouchedBall := false;
              BallPush.HasCenteredBall := false;
              BallPush.Settings := smallArenaSettings |} in
  exists ls,
    BallPush.Episode e [[0; -1]; [0; -1]; [0; 0]] = Ok ls /\
    List.length ls = 3%nat /\
    Forall (fun l =>
              BallPush.stepReward l =
              (if BallPush.justTouchedBall l
               then BallPush.TouchBallReward (BallPush.Settings (BallPush.envAfter l))
               else 0)
              + (if BallPush.justCenteredBall l
                 then BallPush.PlaceInCenterReward (BallPush.Settings (BallPush.envAfter l))
                 else 0)
              + BallPush.moveToCenterTerm (BallPush.envAfter l)
              + (if negb (BallPush.HasTouchedBall (BallPush.envAfter l))
                 then BallPush.moveToBallTerm (BallPush.envAfter l) else 0)) ls /\
    (List.length (filter BallPush.justTouchedBall ls) <= 1)%nat /\
    (List.length (filter BallPush.justCenteredBall ls) <= 1)%nat.
Proof.
  intros e.
  apply (proj1 one_shot_bonuses_per_episode e [[0; -1]; [0; -1]; [0; 0]]).
  repeat (constructor;
          [split; [reflexivity | repeat (constructor; [lra|]); constructor] |]).
  constructor.
Defined.

(** ** BallPush: a run under the default settings *)

Lemma NewBallPushEnv_on_Y_axis_same_side (s : BallPush.BallPushSettings) (r1 r2 : R) :
  BallPush.NewBallPushEnv s r1 0 r2 0 =
  {| BallPush.Agent :=
       NewVerletParticle (V 0 (r1 * BallPush.BoundaryRadius s * 0.75)) 1
         (BallPush.DeltaTime s);
     BallPush.Ball :=
       NewVerletParticle (V 0 (r2 * BallPush.BoundaryRadius s * 0.75)) 1
         (BallPush.DeltaTime s);
     BallPush.HasTouchedBall := false;
     BallPush.HasCenteredBall := false;
     BallPush.Settings := s |}.
Proof.
  unfold BallPush.NewBallPushEnv, BallPush.Reset; cbn [fst BallPush.Settings
    BallPush.Agent BallPush.Ball].
  rewrite !Rotated_Y_axis_zero, !Reset_places_fresh_particle.
  reflexivity.
Qed.

Lemma onYAxis_eq (ya ypa va aa yb ypb vb ab ya' ypa' va' aa' yb' ypb' vb' ab' : R)
  (touched : bool) :
  ya = ya' -> ypa = ypa' -> va = va' -> aa = aa' ->
  yb = yb' -> ypb = ypb' -> vb = vb' -> ab = ab' ->
  onYAxis ya ypa va aa yb ypb vb ab touched
  = onYAxis ya' ypa' va' aa' yb' ypb' vb' ab' touched.
Proof. intros; subst; reflexivity. Qed.

(** Constructed with the draws (74/75, 0, 49/50, 0), the agent is at
    (0, 37) and the ball at (0, 36.75), both at rest. *)
Lemma default_start :
  BallPush.NewBallPushEnv BallPush.DefaultBallPushSettings (74 / 75) 0 (49 / 50) 0
  = onYAxis 37 37 0 0 (147 / 4) (147 / 4) 0 0 false.
Proof.
  rewrite NewBallPushEnv_on_Y_axis_same_side.
  unfold onYAxis, NewVerletParticle; cbn.
  replace (74 / 75 * 50 * 0.75) with 37 by lra.
  replace (49 / 50 * 50 * 0.75) with (147 / 4) by lra.
  reflexivity.
Qed.

(** The first step resolves the overlap of 2.75: both particles are slid
    apart by 1.375 and integrated from there. *)
Lemma default_first_step :
  BallPush.envAfter
    (BallPush.stepPhysics (onYAxis 37 37 0 0 (147 / 4) (147 / 4) 0 0 false) 0 0)
  = onYAxis (159 / 4) (307 / 8) (165 / 2) 0 34 (283 / 8) (- 165 / 2) 0 true.
Proof.
  rewrite stepPhysics_unfold; cbn zeta; cbn [BallPush.envAfter].
  rewrite beforeIntegrate_unfold; cbn zeta; cbn [fst].
  rewrite containAgent_noop.
  2:{ cbn; rewrite Len_axis_Y, Rabs_pos_eq; lra. }
  assert (HL : Len (Sub (V 0 37) (V 0 (147 / 4))) = 1 / 4).
  { unfold Sub; cbn [X Y]; replace (0 - 0) with 0 by ring.
    rewrite Len_axis_Y, Rabs_pos_eq; lra. }
  assert (HU : Unit (Sub (V 0 37) (V 0 (147 / 4))) = V 0 1).
  { rewrite Unit_nonzero by (right; cbn; lra).
    rewrite HL; unfold Scaled, Sub; cbn [X Y]; apply Vec_eq; field. }
  unfold BallPush.resolveCollision, BallPush.ballOverlapOf; cbn zeta.
  cbn [BallPush.applyForces BallPush.Agent BallPush.Ball BallPush.Settings
       BallPush.HasTouchedBall BallPush.HasCenteredBall onYAxis
       ApplyForce Position currentPosition
       BallPush.AgentRadius BallPush.BallRadius BallPush.DefaultBallPushSettings].
  rewrite HU, HL.
  destruct (Rgtb (1 + 2 - 1 / 4) 0) eqn:E; [| apply Rgtb_false in E; lra].
  cbn [fst negb].
  rewrite containBall_noop.
  2:{ cbn; unfold Sub, Scaled; cbn [X Y]; rewrite Len_on_Y; lra. }
  rewrite checkCentered_noop.
  2:{ cbn; unfold Sub, Scaled; cbn [X Y]; rewrite Len_on_Y; lra. }
  cbn [fst]; unfold BallPush.integrate, onYAxis.
  cbn [BallPush.Agent BallPush.Ball BallPush.HasTouchedBall BallPush.HasCenteredBall
       BallPush.Settings].
  unfold BallPush.agentControlForceOf; rewrite controlVecOf_zero.
  f_equal; unfold StepParticle, SlideToPosition; vsimpl; cbn; f_equal;
    apply Vec_eq; lra.
Qed.

(** A step with the zero action while the particles are apart and inside
    their limits: no clamp, no collision, only drag and integration. *)
Lemma free_flight_step (ya ypa va aa yb ypb vb ab : R) :
  0 <= ya <= 49 -> 1 <= yb <= 48 -> 3 <= ya - yb ->
  BallPush.envAfter
    (BallPush.stepPhysics (onYAxis ya ypa va aa yb ypb vb ab true) 0 0)
  = onYAxis (2 * ya - ypa - va / 2400) ya
            ((2 * ya - ypa - va / 2400 - ypa) * 30) (- (3 / 2) * va)
            (2 * yb - ypb - vb / 4800) yb
            ((2 * yb - ypb - vb / 4800 - ypb) * 30) (- (3 / 4) * vb) true.
Proof.
  intros Ha Hb Hab.
  rewrite stepPhysics_unfold; cbn zeta; cbn [BallPush.envAfter].
  rewrite beforeIntegrate_unfold; cbn zeta; cbn [fst].
  rewrite containAgent_noop.
  2:{ cbn; rewrite Len_on_Y; lra. }
  rewrite resolveCollision_noop.
  2:{ unfold BallPush.ballOverlapOf; cbn; unfold Sub; cbn [X Y].
      rewrite Len_on_Y; lra. }
  cbn [fst].
  rewrite containBall_noop.
  2:{ cbn; rewrite Len_on_Y; lra. }
  rewrite checkCentered_noop.
  2:{ cbn; rewrite Len_on_Y; lra. }
  cbn [fst]; unfold BallPush.integrate, onYAxis.
  cbn [BallPush.Agent BallPush.Ball BallPush.HasTouchedBall BallPush.HasCenteredBall
       BallPush.Settings BallPush.applyForces].
  unfold BallPush.agentControlForceOf; rewrite controlVecOf_zero.
  f_equal; unfold StepParticle; vsimpl; cbn; f_equal; apply Vec_eq; lra.
Qed.

Lemma Reachable_free_flight (ya ypa va aa yb ypb vb ab : R)
  (ya' va' aa' yb' vb' ab' : R) :
  BallPush.Reachable BallPush.DefaultBallPushSettings
    (onYAxis ya ypa va aa yb ypb vb ab true) ->
  0 <= ya <= 49 -> 1 <= yb <= 48 -> 3 <= ya - yb ->
  ya' = 2 * ya - ypa - va / 2400 ->
  va' = (ya' - ypa) * 30 ->
  aa' = - (3 / 2) * va ->
  yb' = 2 * yb - ypb - vb / 4800 ->
  vb' = (yb' - ypb) * 30 ->
  ab' = - (3 / 4) * vb ->
  BallPush.Reachable BallPush.DefaultBallPushSettings
    (onYAxis ya' ya va' aa' yb' yb vb' ab' true).
Proof.
  intros HR Ha Hb Hab -> -> -> -> -> ->.
  eapply BallPush.ReachStep; [exact HR |].
  rewrite (BallPush_Step_valid _ 0 0) by lra; cbn zeta.
  rewrite (free_flight_step ya ypa va aa yb ypb vb ab Ha Hb Hab).
  reflexivity.
Qed.

(** Nine steps with the zero action from the constructed environment: the
    overlap is resolved in the first, and the agent then coasts outwards
    along the Y axis under drag. *)
Lemma default_run_reachable :
  BallPush.Reachable BallPush.DefaultBallPushSettings
    (onYAxis
       (332665777351577211 / 6710886400000000) (4064345860862629 / 83886080000000)
       (45694675277816433 / 671088640000000) (- 1758073147245261 / 16777216000000)
       (40551211193860480789 / 1717986918400000000) (266788100858908331 / 10737418240000000)
       (- 12890904242071600833 / 171798691840000000) (244783742047463421 / 4294967296000000) true).
Proof.
  assert (H1 : BallPush.Reachable BallPush.DefaultBallPushSettings
                 (onYAxis
                    (159 / 4) (307 / 8)
                    (165 / 2) 0
                    34 (283 / 8)
                    (- 165 / 2) 0 true)).
  { eapply BallPush.ReachStep.
    - apply (BallPush.ReachNew _ (74 / 75) 0 (49 / 50) 0); lra.
    - rewrite default_start, (BallPush_Step_valid _ 0 0) by lra; cbn zeta.
      rewrite default_first_step; reflexivity. }
  assert (H2 : BallPush.Reachable BallPush.DefaultBallPushSettings
                 (onYAxis
                    (13149 / 320) (159 / 4)
                    (2607 / 32) (- 495 / 4)
                    (20891 / 640) 34
                    (- 5247 / 64) (495 / 8) true)).
  { apply (Reachable_free_flight _ _ _ _ _ _ _ _ _ _ _ _ _ _ H1); lra. }
  assert (H3 : BallPush.Reachable BallPush.DefaultBallPushSettings
                 (onYAxis
                    (1085371 / 25600) (13149 / 320)
                    (203313 / 2560) (- 7821 / 64)
                    (3205269 / 102400) (20891 / 640)
                    (- 828993 / 10240) (15741 / 256) true)).
  { apply (Reachable_free_flight _ _ _ _ _ _ _ _ _ _ _ _ _ _ H2); lra. }
  assert (H4 : BallPush.Reachable BallPush.DefaultBallPushSettings
                 (onYAxis
                    (89437989 / 2048000) (1085371 / 25600)
                    (15853167 / 204800) (- 609939 / 5120)
                    (491152811 / 16384000) (3205269 / 102400)
                    (- 130970367 / 1638400) (2486979 / 40960) true)).
  { apply (Reachable_free_flight _ _ _ _ _ _ _ _ _ _ _ _ _ _ H3); lra. }
  assert (H5 : BallPush.Reachable BallPush.DefaultBallPushSettings
                 (onYAxis
                    (7358419451 / 163840000) (89437989 / 2048000)
                    (1236135153 / 16384000) (- 47559501 / 409600)
                    (75157669909 / 2621440000) (491152811 / 16384000)
                    (- 20691649473 / 262144000) (392911101 / 6553600) true)).
  { apply (Reachable_free_flight _ _ _ _ _ _ _ _ _ _ _ _ _ _ H4); lra. }
  assert (H6 : BallPush.Reachable BallPush.DefaultBallPushSettings
                 (onYAxis
                    (604531937509 / 13107200000) (7358419451 / 163840000)
                    (96386423727 / 1310720000) (- 3708405459 / 32768000)
                    (11483839625771 / 419430400000) (75157669909 / 2621440000)
                    (- 3269017007487 / 41943040000) (62074948419 / 1048576000) true)).
  { apply (Reachable_free_flight _ _ _ _ _ _ _ _ _ _ _ _ _ _ H5); lra. }
  assert (H7 : BallPush.Reachable BallPush.DefaultBallPushSettings
                 (onYAxis
                    (49599096707131 / 1048576000000) (604531937509 / 13107200000)
                    (7515636662193 / 104857600000) (- 289159271181 / 2621440000)
                    (1751882002912149 / 67108864000000) (11483839625771 / 419430400000)
                    (- 516463040274753 / 6710886400000) (9807051022461 / 167772160000) true)).
  { apply (Reachable_free_flight _ _ _ _ _ _ _ _ _ _ _ _ _ _ H6); lra. }
  assert (H8 : BallPush.Reachable BallPush.DefaultBallPushSettings
                 (onYAxis
                    (4064345860862629 / 83886080000000) (49599096707131 / 1048576000000)
                    (586024382415087 / 8388608000000) (- 22546909986579 / 209715200000)
                    (266788100858908331 / 10737418240000000) (1751882002912149 / 67108864000000)
                    (- 81594580682487807 / 1073741824000000) (1549389120824259 / 26843545600000) true)).
  { apply (Reachable_free_flight _ _ _ _ _ _ _ _ _ _ _ _ _ _ H7); lra. }
  assert (H9 : BallPush.Reachable BallPush.DefaultBallPushSettings
                 (onYAxis
                    (332665777351577211 / 6710886400000000) (4064345860862629 / 83886080000000)
                    (45694675277816433 / 671088640000000) (- 1758073147245261 / 16777216000000)
                    (40551211193860480789 / 1717986918400000000) (266788100858908331 / 10737418240000000)
                    (- 12890904242071600833 / 171798691840000000) (244783742047463421 / 4294967296000000) true)).
  { apply (Reachable_free_flight _ _ _ _ _ _ _ _ _ _ _ _ _ _ H8); lra. }
  exact H9.
Qed.

(** Under the default settings too: the environment constructed with the
    draws (74/75, 0, 49/50, 0) and stepped nine times with the valid action
    (0, 0) has the agent at about 49.57 from the center, beyond
    [BoundaryRadius - AgentRadius = 49]. *)
Lemma agent_outside_boundary_default_settings :
  exists e,
    BallPush.Reachable BallPush.DefaultBallPushSettings e /\
    Len (Position (BallPush.Agent e))
      = 332665777351577211 / 6710886400000000 /\
    Len (Position (BallPush.Agent e))
      > BallPush.BoundaryRadius BallPush.DefaultBallPushSettings
        - BallPush.AgentRadius BallPush.DefaultBallPushSettings.
Proof.
  eexists; split; [exact default_run_reachable |].
  cbn; rewrite Len_on_Y by lra; split; lra.
Qed.

(** * Further properties of the code *)

(** ** Verlet particle: forces, impulses and one step *)

Lemma VerletParticle_eq (c c' pr pr' f f' i i' v v' a a' : Vec) (m m' h h' : R) :
  c = c' -> pr = pr' -> m = m' -> f = f' -> i = i' -> v = v' -> a = a' -> h = h' ->
  mkVerletParticle c pr m f i v a h = mkVerletParticle c' pr' m' f' i' v' a' h'.
Proof. intros; subst; reflexivity. Qed.

(** X1: an impulse is integrated as the force [impulse / dt]: stepping
    after [ApplyImpulse j] gives the same particle as stepping after
    [ApplyForce (j / dt)] (exact arithmetic). *)
Theorem impulse_steps_as_force (p : VerletParticle) (j : Vec) :
  StepParticle (ApplyImpulse p j) = StepParticle (ApplyForce p (Scaled j (1 / dt p))).
Proof.
  destruct p as [[cx cy] [px py] m [fx fy] [ix iy] v a h], j as [jx jy].
  unfold StepParticle, ApplyImpulse, ApplyForce; vsimpl.
  apply VerletParticle_eq; try reflexivity; apply Vec_eq; ring.
Qed.

(** X2: in exact arithmetic, for a non-zero time step and mass, one step
    changes the velocity of the position pair by the total force times
    [dt / mass], where an impulse counts as [impulse / dt]; and the cached
    [Velocity()] after the step is the mean of the pair velocity before and
    after it. *)
Theorem StepParticle_kinematics (p : VerletParticle) :
  dt p <> 0 -> mass p <> 0 ->
  let q := StepParticle p in
  let totalForce := Add (currentForce p) (Scaled (currentImpulse p) (1 / dt p)) in
  pairVelocity q = Add (pairVelocity p) (Scaled totalForce (dt p / mass p)) /\
  Velocity q = Scaled (Add (pairVelocity p) (pairVelocity q)) (1 / 2) /\
  Acceleration q = Scaled totalForce (1 / mass p).
Proof.
  intros Hdt Hm.
  destruct p as [[cx cy] [px py] m [fx fy] [ix iy] v a h]; cbn in Hdt, Hm.
  unfold pairVelocity, StepParticle; vsimpl; rdec.
  repeat split; apply Vec_eq; field; auto.
Qed.

Lemma StepParticle_kinematics_witness :
  let p := ApplyImpulse
             (ApplyForce (SetVelocity (NewVerletParticle (V 1 2) 2 (1 / 60)) (V 3 0))
                (V 0 6)) (V 1 0) in
  let q := StepParticle p in
  let totalForce := Add (currentForce p) (Scaled (currentImpulse p) (1 / dt p)) in
  pairVelocity q = Add (pairVelocity p) (Scaled totalForce (dt p / mass p)) /\
  Velocity q = Scaled (Add (pairVelocity p) (pairVelocity q)) (1 / 2) /\
  Acceleration q = Scaled totalForce (1 / mass p).
Proof.
  intros p.
  apply (StepParticle_kinematics p); cbn; lra.
Defined.

(** X3: in exact arithmetic, for a non-zero time step and mass, what was
    accumulated before a step acts on that step only: every later step
    (with no new force or impulse) repeats the displacement of the first
    one. *)
Theorem forces_act_for_one_step (p : VerletParticle) (n : nat) :
  dt p <> 0 -> mass p <> 0 ->
  Sub (currentPosition (StepParticleN (S (S n)) p))
      (currentPosition (StepParticleN (S n) p))
  = Sub (currentPosition (StepParticle p)) (currentPosition p).
Proof.
  intros _ _.
  assert (HF : currentForce (StepParticle p) = ZV) by reflexivity.
  assert (HI : currentImpulse (StepParticle p) = ZV) by reflexivity.
  assert (Hshift : forall k q, StepParticleN (S k) q = StepParticleN k (StepParticle q)).
  { induction k as [|k IH]; intros q; [reflexivity |].
    cbn [StepParticleN] in *; rewrite IH; reflexivity. }
  rewrite (Hshift (S n) p), (Hshift n p).
  destruct (StepParticleN_force_free (StepParticle p) n HF HI) as (IF & II & _ & _ & Id).
  destruct (StepParticle_force_free (StepParticleN n (StepParticle p)) IF II)
    as (_ & _ & _ & _ & _ & Qs & _).
  cbn [StepParticleN]; cbn zeta in *.
  rewrite Qs, Id; reflexivity.
Qed.

Lemma forces_act_for_one_step_witness :
  let p := ApplyImpulse
             (ApplyForce (SetVelocity (NewVerletParticle (V 1 2) 2 (1 / 60)) (V 3 0))
                (V 0 6)) (V 1 0) in
  Sub (currentPosition (StepParticleN 4 p)) (currentPosition (StepParticleN 3 p))
  = Sub (currentPosition (StepParticle p)) (currentPosition p).
Proof.
  intros p.
  apply (forces_act_for_one_step p 2); cbn; lra.
Defined.


(** X5: in exact arithmetic, for a non-zero time step and mass,
    [SetVelocity v] followed by a step with nothing accumulated moves the
    particle by [v * dt], and [Velocity()] then reads [v]. *)
Theorem SetVelocity_then_step (p : VerletParticle) (v : Vec) :
  currentForce p = ZV -> currentImpulse p = ZV ->
  dt p <> 0 -> mass p <> 0 ->
  let q := StepParticle (SetVelocity p v) in
  Velocity q = v /\
  Position q = Add (Position p) (Scaled v (dt p)) /\
  pairVelocity q = v.
Proof.
  intros HF HI Hdt Hm.
  destruct p as [[cx cy] [px py] m f i w a h], v as [vx vy].
  cbn in HF, HI, Hdt, Hm; subst f i.
  unfold pairVelocity, StepParticle, SetVelocity; vsimpl; rdec.
  repeat split; apply Vec_eq; field; auto.
Qed.

Lemma SetVelocity_then_step_witness :
  let p := NewVerletParticle (V 1 2) 1 (1 / 60) in
  let q := StepParticle (SetVelocity p (V 3 4)) in
  Velocity q = V 3 4 /\
  Position q = Add (Position p) (Scaled (V 3 4) (dt p)) /\
  pairVelocity q = V 3 4.
Proof.
  intros p.
  apply (SetVelocity_then_step p (V 3 4)); cbn; try reflexivity; lra.
Defined.

(** ** Shared helpers: clampAll, decay, normInt *)

Lemma Rabs_le_bounds (a b : R) : Rabs a <= b -> - b <= a <= b.
Proof. unfold Rabs; destruct (Rcase_abs a); lra. Qed.

Lemma clampOne_bounds (x : R) : -1 <= clampOne x <= 1.
Proof. unfold clampOne; cbn zeta; case_cmps; lra. Qed.

Lemma clampOne_fixes (x : R) : -1 <= x <= 1 -> clampOne x = x.
Proof. intros H; unfold clampOne; cbn zeta; case_cmps; lra. Qed.

Lemma clampAll_bounds (vals : list R) :
  Forall (fun v => -1 <= v <= 1) (clampAll vals).
Proof.
  apply Forall_forall; intros y Hy; unfold clampAll in Hy.
  apply in_map_iff in Hy; destruct Hy as (x & <- & _); apply clampOne_bounds.
Qed.

Lemma clampAll_fixes (vals : list R) :
  Forall (fun v => -1 <= v <= 1) vals -> clampAll vals = vals.
Proof.
  unfold clampAll; induction 1 as [|v rest Hv _ IH]; cbn [map]; [reflexivity |].
  rewrite (clampOne_fixes v Hv), IH; reflexivity.
Qed.

(** X6: on numbers (NaN, which the model leaves out, would pass through
    both comparisons unchanged), [clampAll] keeps the length, returns only
    values of [[-1, 1]], leaves in-range values as they are (so applying it
    twice changes nothing more), and saturates values outside at the nearer
    end. *)
Theorem clampAll_properties (vals : list R) :
  List.length (clampAll vals) = List.length vals /\
  Forall (fun v => -1 <= v <= 1) (clampAll vals) /\
  (Forall (fun v => -1 <= v <= 1) vals -> clampAll vals = vals) /\
  clampAll (clampAll vals) = clampAll vals /\
  (forall i v, nth_error vals i = Some v ->
     nth_error (clampAll vals) i
       = Some (if Rltb v (-1) then -1 else if Rgtb v 1 then 1 else v)).
Proof.
  split; [apply length_map |].
  split; [apply clampAll_bounds |].
  split; [apply clampAll_fixes |].
  unfold clampAll; split.
  - rewrite map_map; apply map_ext; intros x.
    apply clampOne_fixes, clampOne_bounds.
  - intros i v Hi; rewrite nth_error_map, Hi; cbn [option_map]; f_equal.
    unfold clampOne; cbn zeta; case_cmps; try reflexivity; lra.
Qed.

Lemma decay_closed_form (x : R) : decay x = x / (1 + Rabs x).
Proof.
  unfold decay; cbn zeta; case_cmps.
  - rewrite Rabs_left by lra; field; lra.
  - rewrite Rabs_pos_eq by lra; field; lra.
Qed.

Lemma decay_increasing_nonneg (x y : R) : 0 <= x -> x < y -> decay x < decay y.
Proof.
  intros Hx Hxy; rewrite !decay_closed_form, !Rabs_pos_eq by lra.
  assert (H : y / (1 + y) - x / (1 + x) = (y - x) / ((1 + y) * (1 + x)))
    by (field; lra).
  assert (Hpos : 0 < (y - x) / ((1 + y) * (1 + x))).
  { apply Rdiv_lt_0_compat; [lra | apply Rmult_lt_0_compat; lra]. }
  lra.
Qed.

Lemma decay_odd (x : R) : decay (- x) = - decay x.
Proof. rewrite !decay_closed_form, Rabs_Ropp; field. pose proof (Rabs_pos x); lra. Qed.

(** X7: in exact arithmetic [decay x] is [x / (1 + |x|)]: an odd, strictly
    increasing function with [decay 0 = 0] and every value strictly between
    -1 and 1. *)
Theorem decay_properties :
  (forall x, decay x = x / (1 + Rabs x)) /\
  decay 0 = 0 /\
  (forall x, decay (- x) = - decay x) /\
  (forall x, -1 < decay x < 1) /\
  (forall x y, x < y -> decay x < decay y).
Proof.
  split; [exact decay_closed_form |].
  split; [rewrite decay_closed_form, Rabs_R0; field |].
  split; [exact decay_odd |].
  assert (Hnn : forall x, 0 <= x -> 0 <= decay x < 1).
  { intros x Hx; rewrite decay_closed_form, Rabs_pos_eq by lra.
    assert (H1 : x / (1 + x) = 1 - 1 / (1 + x)) by (field; lra).
    assert (H2 : 0 < 1 / (1 + x)) by (apply Rdiv_lt_0_compat; lra).
    assert (H3 : 0 <= x / (1 + x)).
    { apply Rmult_le_pos; [lra | apply Rlt_le, Rinv_0_lt_compat; lra]. }
    lra. }
  split.
  - intros x; destruct (Rle_lt_dec 0 x) as [Hx|Hx].
    + specialize (Hnn x Hx); lra.
    + specialize (Hnn (- x) ltac:(lra)); rewrite decay_odd in Hnn; lra.
  - intros x y Hxy.
    destruct (Rle_lt_dec 0 x) as [Hx|Hx].
    + apply decay_increasing_nonneg; assumption.
    + destruct (Rle_lt_dec 0 y) as [Hy|Hy].
      * pose proof (Hnn y Hy) as Py.
        assert (Px : 0 < decay (- x)).
        { pose proof (decay_increasing_nonneg 0 (- x) ltac:(lra) ltac:(lra)) as H.
          pose proof (Hnn 0 ltac:(lra)); lra. }
        rewrite decay_odd in Px; lra.
      * pose proof (decay_increasing_nonneg (- y) (- x) ltac:(lra) ltac:(lra)) as H.
        rewrite !decay_odd in H; lra.
Qed.

Lemma mathRound_nonneg (x : R) :
  0 <= x -> (0 <= mathRound x)%Z /\ Rabs (IZR (mathRound x) - x) <= 1 / 2.
Proof.
  intros Hx; unfold mathRound.
  destruct (Rltb x 0) eqn:E; [apply Rltb_true in E; lra |].
  destruct (base_Int_part (x + 1 / 2)) as [H1 H2].
  split.
  - assert (H : (-1 < Int_part (x + 1 / 2))%Z) by (apply lt_IZR; lra).
    lia.
  - apply Rabs_le; lra.
Qed.

Lemma intOfFloat_in_range (overflow z : Z) :
  (0 <= z)%Z -> IZR z < IZR (2 ^ 63) -> intOfFloat overflow z = z.
Proof.
  intros H0 H1; apply lt_IZR in H1; unfold intOfFloat.
  destruct (Z.leb_spec (- 2 ^ 63) z) as [_|H]; [| lia].
  destruct (Z.ltb_spec z (2 ^ 63)) as [_|H]; [reflexivity | lia].
Qed.

(** X8: in exact arithmetic, when [|norm * std| + 1/2] is below [2^63] (so
    that the rounded value fits the 64-bit [int]), [normInt] returns a
    non-negative integer, the one nearest to [|norm * std|] (within one
    half of it), whatever the sign of the draw and of [std] and whatever the
    implementation does on overflow. *)
Theorem normInt_properties (overflow : Z) (std norm : R) :
  Rabs (norm * std) + 1 / 2 < IZR (2 ^ 63) ->
  (0 <= normInt overflow std norm)%Z /\
  Rabs (IZR (normInt overflow std norm) - Rabs (norm * std)) <= 1 / 2 /\
  normInt overflow std (- norm) = normInt overflow std norm /\
  normInt overflow (- std) norm = normInt overflow std norm /\
  (forall overflow', normInt overflow' std norm = normInt overflow std norm).
Proof.
  intros Hfit.
  assert (Habs : forall o s g,
            normInt o s g = intOfFloat o (mathRound (Rabs (g * s)))).
  { intros o s g; unfold normInt; cbn zeta; case_cmps.
    - rewrite Rabs_left by lra; reflexivity.
    - rewrite Rabs_pos_eq by lra; reflexivity. }
  destruct (mathRound_nonneg (Rabs (norm * std)) (Rabs_pos _)) as [H1 H2].
  assert (Hlt : IZR (mathRound (Rabs (norm * std))) < IZR (2 ^ 63)).
  { apply Rabs_le_bounds in H2; lra. }
  assert (Hval : forall o, normInt o std norm = mathRound (Rabs (norm * std))).
  { intros o; rewrite Habs; apply intOfFloat_in_range; assumption. }
  assert (Hneg : Rabs (- norm * std) = Rabs (norm * std)).
  { rewrite <- (Rabs_Ropp (norm * std)); f_equal; ring. }
  assert (Hneg' : Rabs (norm * - std) = Rabs (norm * std)).
  { rewrite <- (Rabs_Ropp (norm * std)); f_equal; ring. }
  rewrite (Hval overflow).
  split; [exact H1 |]. split; [exact H2 |].
  split; [rewrite Habs, Hneg; apply intOfFloat_in_range; assumption |].
  split; [rewrite Habs, Hneg'; apply intOfFloat_in_range; assumption |].
  intros o; apply Hval.
Qed.

Lemma normInt_properties_witness :
  (0 <= normInt 0 3 (- 5 / 4))%Z /\
  Rabs (IZR (normInt 0 3 (- 5 / 4)) - Rabs (- 5 / 4 * 3)) <= 1 / 2 /\
  normInt 0 3 (- (- 5 / 4)) = normInt 0 3 (- 5 / 4) /\
  normInt 0 (- 3) (- 5 / 4) = normInt 0 3 (- 5 / 4) /\
  (forall overflow', normInt overflow' 3 (- 5 / 4) = normInt 0 3 (- 5 / 4)).
Proof.
  apply (normInt_properties 0 3 (- 5 / 4)).
  rewrite Rabs_left by lra.
  change (2 ^ 63)%Z with 9223372036854775808%Z; lra.
Defined.

(** ** CartPole: categorical actions, shapes, reset *)

(** X9: the categorical actions of the cart-pole are exactly the indices
    below [NumCategoricalActions]: each converts to an action [Step]
    accepts, and every other index panics with "Invalid action". *)
Theorem CartPole_categorical_actions (e : CartPole.CartPoleEnv) (a : Z) :
  ((0 <= a < CartPole.NumCategoricalActions e)%Z ->
   exists action,
     CartPole.ConvertCategoricalAction e a = Ok action /\
     validAction 1 action /\
     is_ok (CartPole.Step e action) = true) /\
  (~ (0 <= a < CartPole.NumCategoricalActions e)%Z ->
   CartPole.ConvertCategoricalAction e a = Panic "Invalid action").
Proof.
  unfold CartPole.NumCategoricalActions; split.
  - intros H.
    assert (Hv : forall x, -1 <= x <= 1 -> validAction 1 [x]).
    { intros x Hx; split; [reflexivity | constructor; [exact Hx | constructor]]. }
    assert (Ha : a = 0%Z \/ a = 1%Z \/ a = 2%Z) by lia.
    destruct Ha as [-> | [-> | ->]]; cbn [CartPole.ConvertCategoricalAction];
      eexists; (split; [reflexivity |]);
      (split; [apply Hv | apply CartPole_Step_is_ok, Hv]); lra.
  - intros H.
    destruct a as [|[p|[p|p|]|]|p]; try reflexivity; exfalso; apply H; lia.
Qed.

Lemma CartPole_categorical_actions_witness :
  let e := CartPole.NewCartPoleEnv CartPole.DefaultCartPoleSettings in
  (exists action,
     CartPole.ConvertCategoricalAction e 2 = Ok action /\
     validAction 1 action /\
     is_ok (CartPole.Step e action) = true) /\
  CartPole.ConvertCategoricalAction e 3 = Panic "Invalid action".
Proof.
  intros e; split.
  - apply (proj1 (CartPole_categorical_actions e 2));
      unfold CartPole.NumCategoricalActions; lia.
  - apply (proj2 (CartPole_categorical_actions e 3));
      unfold CartPole.NumCategoricalActions; lia.
Defined.

Lemma CartPole_getObservation_shape (e : CartPole.CartPoleEnv) :
  List.length (CartPole.getObservation e) = 4%nat /\
  Forall (fun v => -1 <= v <= 1) (CartPole.getObservation e).
Proof.
  unfold CartPole.getObservation; split.
  - reflexivity.
  - apply clampAll_bounds.
Qed.

(** X10: the cart-pole shapes never change: [ObservationLength] is 4 and
    [ActionLength] is 1 in every state, every observation returned by
    [Step] or [Reset] has four entries, the debug mapping is empty, and
    both calls leave the settings as they were.  When [MaxVelocity] and
    [MaxRotationalVelocity], the divisors of the observation, are not zero,
    all four entries are within [[-1, 1]]. *)
Theorem CartPole_shapes :
  (forall e, CartPole.ObservationLength e = 4%Z /\ CartPole.ActionLength e = 1%Z) /\
  (forall e action e' d,
     CartPole.Step e action = Ok (e', d) ->
     List.length (Observation d) = 4%nat /\
     Info d = [] /\
     CartPole.Settings e' = CartPole.Settings e /\
     (CartPole.MaxVelocity (CartPole.Settings e) <> 0 ->
      CartPole.MaxRotationalVelocity (CartPole.Settings e) <> 0 ->
      Forall (fun v => -1 <= v <= 1) (Observation d))) /\
  (forall e rand1 rand2,
     let r := CartPole.Reset e rand1 rand2 in
     List.length (ResetObservation (snd r)) = 4%nat /\
     ResetInfo (snd r) = [] /\
     CartPole.Settings (fst r) = CartPole.Settings e /\
     (CartPole.MaxVelocity (CartPole.Settings e) <> 0 ->
      CartPole.MaxRotationalVelocity (CartPole.Settings e) <> 0 ->
      Forall (fun v => -1 <= v <= 1) (ResetObservation (snd r)))).
Proof.
  split; [intros e; split; reflexivity |].
  split.
  - intros e action e' d H.
    destruct (CartPole_Step_inv _ _ _ _ H) as (a & -> & Ha & -> & HO & _).
    rewrite (CartPole_Step_valid e a Ha) in H; inversion H; subst d; cbn.
    destruct (CartPole_getObservation_shape (CartPole.stepPhysics e a)) as [_ Hb].
    repeat split; intros _ _; exact Hb.
  - intros e rand1 rand2 r; unfold r; cbn [CartPole.Reset fst snd ResetObservation ResetInfo].
    match goal with
    | |- context [CartPole.getObservation ?x] =>
        destruct (CartPole_getObservation_shape x) as [Hl Hb]
    end.
    repeat split; try assumption; intros _ _; exact Hb.
Qed.

Lemma CartPole_shapes_witness :
  let e := CartPole.NewCartPoleEnv CartPole.DefaultCartPoleSettings in
  let e' := CartPole.stepPhysics e 1 in
  let d := {| Observation := CartPole.getObservation e';
              Reward := snd (CartPole.stepOutcome e');
              Terminated := fst (CartPole.stepOutcome e');
              Info := [] |} in
  List.length (Observation d) = 4%nat /\
  Info d = [] /\
  CartPole.Settings e' = CartPole.Settings e /\
  Forall (fun v => -1 <= v <= 1) (Observation d).
Proof.
  intros e e' d.
  assert (H : CartPole.Step e [1] = Ok (e', d)) by (apply CartPole_Step_valid; lra).
  destruct (proj1 (proj2 CartPole_shapes) e [1] e' d H) as (H1 & H2 & H3 & H4).
  repeat split; try assumption.
  apply H4; cbn; pose proof PI_RGT_0; lra.
Defined.

(** X11: [Reset] on draws of [[0, 1)] puts the cart within
    [MaxInitialOffset] of the center and the pole within [MaxInitialAngle]
    of upright, with both velocities zero; the state it leaves depends on
    the settings and the draws only, not on the state before. *)
Theorem CartPole_Reset_bounds (e : CartPole.CartPoleEnv) (rand1 rand2 : R) :
  0 <= rand1 < 1 -> 0 <= rand2 < 1 ->
  let s := CartPole.Settings e in
  let e' := fst (CartPole.Reset e rand1 rand2) in
  Rabs (CartPole.BoxPosition e') <= Rabs (CartPole.MaxInitialOffset s) /\
  Rabs (CartPole.PoleRotation e') <= Rabs (CartPole.MaxInitialAngle s) /\
  CartPole.BoxVelocity e' = 0 /\
  CartPole.PoleRotationalVelocity e' = 0 /\
  (forall e2, CartPole.Settings e2 = s ->
     CartPole.Reset e2 rand1 rand2 = CartPole.Reset e rand1 rand2).
Proof.
  intros H1 H2 s e'; unfold e', s; cbn [CartPole.Reset fst CartPole.BoxPosition
    CartPole.PoleRotation CartPole.BoxVelocity CartPole.PoleRotationalVelocity].
  assert (Hb : forall r m, 0 <= r < 1 -> Rabs ((r * 2 - 1) * m) <= Rabs m).
  { intros r m Hr; rewrite Rabs_mult.
    assert (Rabs (r * 2 - 1) <= 1) by (apply Rabs_le; lra).
    pose proof (Rabs_pos m); nra. }
  split; [apply Hb, H1 |]. split; [apply Hb, H2 |].
  split; [lra |]. split; [lra |].
  intros e2 He2; unfold CartPole.Reset; rewrite He2; reflexivity.
Qed.

Lemma CartPole_Reset_bounds_witness :
  let e := CartPole.NewCartPoleEnv CartPole.DefaultCartPoleSettings in
  let s := CartPole.Settings e in
  let e' := fst (CartPole.Reset e (1 / 4) (3 / 4)) in
  Rabs (CartPole.BoxPosition e') <= Rabs (CartPole.MaxInitialOffset s) /\
  Rabs (CartPole.PoleRotation e') <= Rabs (CartPole.MaxInitialAngle s) /\
  CartPole.BoxVelocity e' = 0 /\
  CartPole.PoleRotationalVelocity e' = 0 /\
  (forall e2, CartPole.Settings e2 = s ->
     CartPole.Reset e2 (1 / 4) (3 / 4) = CartPole.Reset e (1 / 4) (3 / 4)).
Proof.
  intros e.
  apply (CartPole_Reset_bounds e (1 / 4) (3 / 4)); lra.
Defined.

(** ** CartPole: dynamics *)

(** X12: in exact arithmetic, with non-negative maxima, in one step the
    cart moves by the clamped velocity times the time step, so by at most
    [MaxVelocity * |TimeStep|], and the pole turns by at most
    [MaxRotationalVelocity * |TimeStep|]. *)
Theorem CartPole_step_displacement (e : CartPole.CartPoleEnv) (a : R) :
  let s := CartPole.Settings e in
  0 <= CartPole.MaxVelocity s ->
  0 <= CartPole.MaxRotationalVelocity s ->
  let e' := CartPole.stepPhysics e a in
  CartPole.BoxPosition e' - CartPole.BoxPosition e
    = CartPole.BoxVelocity e' * CartPole.TimeStep s /\
  CartPole.PoleRotation e' - CartPole.PoleRotation e
    = CartPole.PoleRotationalVelocity e' * CartPole.TimeStep s /\
  Rabs (CartPole.BoxPosition e' - CartPole.BoxPosition e)
    <= CartPole.MaxVelocity s * Rabs (CartPole.TimeStep s) /\
  Rabs (CartPole.PoleRotation e' - CartPole.PoleRotation e)
    <= CartPole.MaxRotationalVelocity s * Rabs (CartPole.TimeStep s).
Proof.
  intros s Hv Hr e'.
  destruct (CartPole_stepPhysics_bounded e a Hv Hr) as [Bv Br].
  fold s e' in Bv, Br.
  assert (E1 : CartPole.BoxPosition e' - CartPole.BoxPosition e
               = CartPole.BoxVelocity e' * CartPole.TimeStep s)
    by (unfold e', CartPole.stepPhysics; cbn; fold s; ring).
  assert (E2 : CartPole.PoleRotation e' - CartPole.PoleRotation e
               = CartPole.PoleRotationalVelocity e' * CartPole.TimeStep s)
    by (unfold e', CartPole.stepPhysics; cbn; fold s; ring).
  split; [exact E1 |]. split; [exact E2 |].
  rewrite E1, E2, !Rabs_mult.
  pose proof (Rabs_pos (CartPole.TimeStep s)).
  split; apply Rmult_le_compat_r; assumption.
Qed.

Lemma CartPole_step_displacement_witness :
  let e := fst (CartPole.Reset (CartPole.NewCartPoleEnv CartPole.DefaultCartPoleSettings)
                  (1 / 4) (3 / 4)) in
  let s := CartPole.Settings e in
  let e' := CartPole.stepPhysics e 1 in
  CartPole.BoxPosition e' - CartPole.BoxPosition e
    = CartPole.BoxVelocity e' * CartPole.TimeStep s /\
  CartPole.PoleRotation e' - CartPole.PoleRotation e
    = CartPole.PoleRotationalVelocity e' * CartPole.TimeStep s /\
  Rabs (CartPole.BoxPosition e' - CartPole.BoxPosition e)
    <= CartPole.MaxVelocity s * Rabs (CartPole.TimeStep s) /\
  Rabs (CartPole.PoleRotation e' - CartPole.PoleRotation e)
    <= CartPole.MaxRotationalVelocity s * Rabs (CartPole.TimeStep s).
Proof.
  intros e.
  apply (CartPole_step_displacement e 1).
  - cbn; lra.
  - cbn; pose proof PI_RGT_0; lra.
Defined.

Lemma CartPoleEnv_eq (p p' v v' r r' w w' : R) (s : CartPole.CartPoleSettings) :
  p = p' -> v = v' -> r = r' -> w = w' ->
  CartPole.mkCartPoleEnv p v r w s = CartPole.mkCartPoleEnv p' v' r' w' s.
Proof. intros; subst; reflexivity. Qed.

Lemma clampOne_odd (x : R) : clampOne (- x) = - clampOne x.
Proof. unfold clampOne; cbn zeta; case_cmps; lra. Qed.

Lemma CartPole_stepPhysics_mirror (e : CartPole.CartPoleEnv) (a : R) :
  0 <= CartPole.MaxVelocity (CartPole.Settings e) ->
  0 <= CartPole.MaxRotationalVelocity (CartPole.Settings e) ->
  CartPole.stepPhysics (mirrorCartPole e) (- a) = mirrorCartPole (CartPole.stepPhysics e a).
Proof.
  intros Hv Hr.
  destruct e as [p v r w s]; cbn in Hv, Hr.
  unfold CartPole.stepPhysics, mirrorCartPole; cbn.
  rewrite sin_neg, cos_neg.
  apply CartPoleEnv_eq; case_cmps; lra.
Qed.

Lemma CartPole_stepOutcome_mirror (e : CartPole.CartPoleEnv) :
  CartPole.stepOutcome (mirrorCartPole e) = CartPole.stepOutcome e.
Proof.
  destruct e as [p v r w s].
  unfold CartPole.stepOutcome, mirrorCartPole; cbn.
  rewrite Rabs_Ropp.
  case_cmps; cbn [orb]; try reflexivity; lra.
Qed.

Lemma CartPole_getObservation_mirror (e : CartPole.CartPoleEnv) :
  CartPole.getObservation (mirrorCartPole e) = map Ropp (CartPole.getObservation e).
Proof.
  destruct e as [p v r w s].
  unfold CartPole.getObservation, mirrorCartPole, clampAll; cbn [map
    CartPole.BoxPosition CartPole.BoxVelocity CartPole.PoleRotation
    CartPole.PoleRotationalVelocity CartPole.Settings].
  rewrite <- !clampOne_odd.
  repeat f_equal; unfold Rdiv; ring.
Qed.

(** X13: the cart-pole is left-right symmetric.  With non-negative
    maxima, stepping the mirrored state with the negated action gives the
    mirrored state, the negated observation, and the same reward and
    termination flag. *)
Theorem CartPole_Step_mirror (e : CartPole.CartPoleEnv) (a : R) :
  -1 <= a <= 1 ->
  0 <= CartPole.MaxVelocity (CartPole.Settings e) ->
  0 <= CartPole.MaxRotationalVelocity (CartPole.Settings e) ->
  exists e' d dm,
    CartPole.Step e [a] = Ok (e', d) /\
    CartPole.Step (mirrorCartPole e) [- a] = Ok (mirrorCartPole e', dm) /\
    Observation dm = map Ropp (Observation d) /\
    Reward dm = Reward d /\
    Terminated dm = Terminated d.
Proof.
  intros Ha Hv Hr.
  rewrite (CartPole_Step_valid e a Ha).
  rewrite (CartPole_Step_valid (mirrorCartPole e) (- a)) by lra.
  rewrite (CartPole_stepPhysics_mirror e a Hv Hr).
  eexists; eexists; eexists; split; [reflexivity |]; split; [reflexivity |].
  cbn [Observation Reward Terminated].
  rewrite CartPole_stepOutcome_mirror, CartPole_getObservation_mirror.
  repeat split.
Qed.

Lemma CartPole_Step_mirror_witness :
  let e := fst (CartPole.Reset (CartPole.NewCartPoleEnv CartPole.DefaultCartPoleSettings)
                  (1 / 4) (3 / 4)) in
  exists e' d dm,
    CartPole.Step e [1] = Ok (e', d) /\
    CartPole.Step (mirrorCartPole e) [- 1] = Ok (mirrorCartPole e', dm) /\
    Observation dm = map Ropp (Observation d) /\
    Reward dm = Reward d /\
    Terminated dm = Terminated d.
Proof.
  intros e.
  apply (CartPole_Step_mirror e 1).
  - lra.
  - cbn; lra.
  - cbn; pose proof PI_RGT_0; lra.
Defined.

Lemma CartPole_not_terminated_inside (e : CartPole.CartPoleEnv) :
  fst (CartPole.stepOutcome e) = false ->
  -1 <= CartPole.BoxPosition e <= 1 /\
  - CartPole.FailAngle (CartPole.Settings e) <= CartPole.PoleRotation e
    <= CartPole.FailAngle (CartPole.Settings e).
Proof.
  unfold CartPole.stepOutcome; cbn zeta.
  case_cmps; cbn [orb fst]; intros Ht; try discriminate Ht; lra.
Qed.

(** X14: a step that does not terminate leaves the cart within [[-1, 1]]
    and the pole within the fail angle, and its reward lies between
    [CenteredPerStepReward - 1] and [CenteredPerStepReward]; a step that
    terminates returns one of the two failure rewards. *)
Theorem CartPole_reward_range
  (e e' : CartPole.CartPoleEnv) (action : list R) (d : StepData) :
  CartPole.Step e action = Ok (e', d) ->
  let s := CartPole.Settings e in
  (Terminated d = false ->
   -1 <= CartPole.BoxPosition e' <= 1 /\
   - CartPole.FailAngle s <= CartPole.PoleRotation e' <= CartPole.FailAngle s /\
   CartPole.CenteredPerStepReward s - 1 <= Reward d <= CartPole.CenteredPerStepReward s) /\
  (Terminated d = true ->
   Reward d = CartPole.OutOfBoundsReward s \/ Reward d = CartPole.PoleFallReward s).
Proof.
  intros H s.
  destruct (CartPole_Step_inv _ _ _ _ H) as (a & _ & _ & He' & _ & HR & HT).
  assert (Hs : CartPole.Settings e' = s) by (subst e'; reflexivity).
  rewrite HR, HT; unfold CartPole.stepOutcome; cbn zeta; rewrite Hs.
  case_cmps; cbn [orb fst snd]; split; intros Ht; try discriminate Ht; auto.
  repeat split; try lra.
  - pose proof (Rabs_le (CartPole.BoxPosition e') 1 ltac:(lra)); lra.
  - pose proof (Rabs_pos (CartPole.BoxPosition e')); lra.
Qed.

Lemma CartPole_reward_range_witness :
  let e := fst (CartPole.Reset (CartPole.NewCartPoleEnv CartPole.DefaultCartPoleSettings)
                  (1 / 2) (1 / 2)) in
  let e' := CartPole.stepPhysics e 1 in
  let d := {| Observation := CartPole.getObservation e';
              Reward := snd (CartPole.stepOutcome e');
              Terminated := fst (CartPole.stepOutcome e');
              Info := [] |} in
  let s := CartPole.Settings e in
  (Terminated d = false ->
   -1 <= CartPole.BoxPosition e' <= 1 /\
   - CartPole.FailAngle s <= CartPole.PoleRotation e' <= CartPole.FailAngle s /\
   CartPole.CenteredPerStepReward s - 1 <= Reward d <= CartPole.CenteredPerStepReward s) /\
  (Terminated d = true ->
   Reward d = CartPole.OutOfBoundsReward s \/ Reward d = CartPole.PoleFallReward s).
Proof.
  intros e e' d.
  apply (CartPole_reward_range e e' [1] d).
  apply CartPole_Step_valid; lra.
Defined.

(** X15: with a non-negative [MaxRotationalVelocity] and the cart velocity
    within [MaxVelocity], the upright pole is an equilibrium of the zero
    action: from a pole at angle 0 with angular velocity 0, any number of
    zero-action steps leaves it there, while the cart coasts at its
    velocity. *)
Theorem CartPole_upright_equilibrium (e : CartPole.CartPoleEnv) (n : nat) :
  let s := CartPole.Settings e in
  0 <= CartPole.MaxRotationalVelocity s ->
  Rabs (CartPole.BoxVelocity e) <= CartPole.MaxVelocity s ->
  CartPole.PoleRotation e = 0 ->
  CartPole.PoleRotationalVelocity e = 0 ->
  exists rs,
    CartPole.Run e (repeat [0] n) = Ok rs /\
    List.length rs = n /\
    Forall (fun r =>
              CartPole.PoleRotation (fst r) = 0 /\
              CartPole.PoleRotationalVelocity (fst r) = 0 /\
              CartPole.BoxVelocity (fst r) = CartPole.BoxVelocity e) rs.
Proof.
  intros s Hr Hv H0 Hw.
  assert (Hstep : forall x,
            CartPole.Settings x = s ->
            CartPole.BoxVelocity x = CartPole.BoxVelocity e ->
            CartPole.PoleRotation x = 0 ->
            CartPole.PoleRotationalVelocity x = 0 ->
            CartPole.Settings (CartPole.stepPhysics x 0) = s /\
            CartPole.BoxVelocity (CartPole.stepPhysics x 0) = CartPole.BoxVelocity e /\
            CartPole.PoleRotation (CartPole.stepPhysics x 0) = 0 /\
            CartPole.PoleRotationalVelocity (CartPole.stepPhysics x 0) = 0).
  { intros x Hs Hxv Hx0 Hxw.
    apply Rabs_le_bounds in Hv.
    unfold CartPole.stepPhysics; cbn; rewrite Hs, Hxv, Hx0, Hxw, sin_0, cos_0.
    repeat split; case_cmps; lra. }
  assert (Hrun : forall k x,
            CartPole.Settings x = s ->
            CartPole.BoxVelocity x = CartPole.BoxVelocity e ->
            CartPole.PoleRotation x = 0 ->
            CartPole.PoleRotationalVelocity x = 0 ->
            exists rs,
              CartPole.Run x (repeat [0] k) = Ok rs /\
              List.length rs = k /\
              Forall (fun r =>
                        CartPole.PoleRotation (fst r) = 0 /\
                        CartPole.PoleRotationalVelocity (fst r) = 0 /\
                        CartPole.BoxVelocity (fst r) = CartPole.BoxVelocity e) rs).
  { induction k as [|k IH]; intros x Hs Hxv Hx0 Hxw.
    - exists []; repeat split; constructor.
    - cbn [repeat CartPole.Run].
      rewrite (CartPole_Step_valid x 0) by lra; cbn [bind fst].
      destruct (Hstep x Hs Hxv Hx0 Hxw) as (Ks & Kv & K0 & Kw).
      destruct (IH _ Ks Kv K0 Kw) as (rs & -> & HL & HF); cbn [bind].
      eexists; split; [reflexivity |]; split; [cbn; rewrite HL; reflexivity |].
      constructor; [cbn [fst]; repeat split; assumption | exact HF]. }
  apply Hrun; auto.
Qed.

Lemma CartPole_upright_equilibrium_witness :
  let e := CartPole.NewCartPoleEnv CartPole.DefaultCartPoleSettings in
  exists rs,
    CartPole.Run e (repeat [0] 5) = Ok rs /\
    List.length rs = 5%nat /\
    Forall (fun r =>
              CartPole.PoleRotation (fst r) = 0 /\
              CartPole.PoleRotationalVelocity (fst r) = 0 /\
              CartPole.BoxVelocity (fst r) = CartPole.BoxVelocity e) rs.
Proof.
  intros e.
  apply (CartPole_upright_equilibrium e 5).
  - cbn; pose proof PI_RGT_0; lra.
  - cbn; rewrite Rabs_R0; lra.
  - reflexivity.
  - reflexivity.
Defined.

(** One step with the action 1 from a cart that is not moving left: the
    velocity reaches at least [min MaxVelocity (Acceleration * TimeStep)]
    and the cart advances by at least that much times the time step. *)
Lemma CartPole_push_step (s : CartPole.CartPoleSettings) (e : CartPole.CartPoleEnv) :
  CartPole.Settings e = s ->
  0 < CartPole.Acceleration s -> 0 < CartPole.TimeStep s -> 0 < CartPole.MaxVelocity s ->
  0 <= CartPole.BoxVelocity e ->
  let c := Rmin (CartPole.MaxVelocity s) (CartPole.Acceleration s * CartPole.TimeStep s) in
  let e' := CartPole.stepPhysics e 1 in
  0 < c /\
  CartPole.Settings e' = s /\
  0 <= CartPole.BoxVelocity e' /\
  CartPole.BoxPosition e + c * CartPole.TimeStep s <= CartPole.BoxPosition e'.
Proof.
  intros Hs Ha Ht Hm Hv c e'.
  assert (Hat : 0 < CartPole.Acceleration s * CartPole.TimeStep s)
    by (apply Rmult_lt_0_compat; assumption).
  assert (Hc : 0 < c) by (unfold c; apply Rmin_glb_lt; assumption).
  assert (Hc1 : c <= CartPole.MaxVelocity s) by apply Rmin_l.
  assert (Hc2 : c <= CartPole.Acceleration s * CartPole.TimeStep s) by apply Rmin_r.
  assert (Hv' : c <= CartPole.BoxVelocity e').
  { unfold e', CartPole.stepPhysics; cbn; rewrite Hs; case_cmps; lra. }
  split; [exact Hc |]. split; [subst s; reflexivity |]. split; [lra |].
  assert (Hp : CartPole.BoxPosition e'
               = CartPole.BoxPosition e + CartPole.BoxVelocity e' * CartPole.TimeStep s)
    by (unfold e', CartPole.stepPhysics; cbn; rewrite Hs; reflexivity).
  rewrite Hp; apply Rplus_le_compat_l, Rmult_le_compat_r; lra.
Qed.

Lemma CartPole_push_run (s : CartPole.CartPoleSettings) (n : nat) :
  0 < CartPole.Acceleration s -> 0 < CartPole.TimeStep s -> 0 < CartPole.MaxVelocity s ->
  let c := Rmin (CartPole.MaxVelocity s) (CartPole.Acceleration s * CartPole.TimeStep s) in
  forall e,
    CartPole.Settings e = s ->
    0 <= CartPole.BoxVelocity e ->
    exists rs e' d,
      CartPole.Run e (repeat [1] (S n)) = Ok (rs ++ [(e', d)]) /\
      CartPole.Settings e' = s /\
      CartPole.BoxPosition e + INR (S n) * (c * CartPole.TimeStep s)
        <= CartPole.BoxPosition e' /\
      Terminated d = fst (CartPole.stepOutcome e') /\
      Reward d = snd (CartPole.stepOutcome e').
Proof.
  intros Ha Ht Hm c; induction n as [|n IH]; intros e Hs Hv;
    destruct (CartPole_push_step s e Hs Ha Ht Hm Hv) as (Hc & Ks & Kv & Kp);
    fold c in Hc, Kp.
  - exists [], (CartPole.stepPhysics e 1); eexists.
    cbn [repeat CartPole.Run].
    rewrite (CartPole_Step_valid e 1) by lra; cbn [bind app].
    split; [reflexivity |]. split; [exact Ks |].
    split; [cbn [INR]; lra |]. split; reflexivity.
  - destruct (IH _ Ks Kv) as (rs & e' & d & HRun & Hs' & Hp & HT & HR).
    change (repeat [1] (S (S n))) with ([1] :: repeat [1] (S n)).
    cbn [CartPole.Run].
    rewrite (CartPole_Step_valid e 1) by lra; cbn [bind fst].
    rewrite HRun; cbn [bind].
    eexists (_ :: rs), e', d.
    split; [reflexivity |]. split; [exact Hs' |].
    split; [| split; assumption].
    rewrite (S_INR (S n)).
    assert (0 < c * CartPole.TimeStep s) by (apply Rmult_lt_0_compat; assumption).
    lra.
Qed.

(** X16: in exact arithmetic, pushing right for ever ends the episode.
    With positive acceleration, time step and maximum velocity, from any
    state whose cart is not moving left (every state [Reset] produces) some
    number of steps with the action 1 all return, and the last of them
    leaves the cart beyond 1 and reports [terminated] with
    [OutOfBoundsReward].  (The argument adds up the per-step advances; it
    says nothing of a [float64] run whose advance is lost to rounding.) *)
Theorem CartPole_push_right_terminates (e : CartPole.CartPoleEnv) :
  let s := CartPole.Settings e in
  0 < CartPole.Acceleration s -> 0 < CartPole.TimeStep s -> 0 < CartPole.MaxVelocity s ->
  0 <= CartPole.BoxVelocity e ->
  exists n rs e' d,
    CartPole.Run e (repeat [1] n) = Ok (rs ++ [(e', d)]) /\
    CartPole.BoxPosition e' > 1 /\
    Terminated d = true /\
    Reward d = CartPole.OutOfBoundsReward s.
Proof.
  intros s Ha Ht Hm Hv.
  set (c := Rmin (CartPole.MaxVelocity s) (CartPole.Acceleration s * CartPole.TimeStep s)).
  assert (Hc : 0 < c * CartPole.TimeStep s).
  { apply Rmult_lt_0_compat; [unfold c; apply Rmin_glb_lt |]; try assumption.
    apply Rmult_lt_0_compat; assumption. }
  destruct (INR_archimed (c * CartPole.TimeStep s) (1 - CartPole.BoxPosition e) Hc)
    as [n Hn].
  destruct (CartPole_push_run s n Ha Ht Hm e eq_refl Hv)
    as (rs & e' & d & HRun & Hs' & Hp & HT & HR).
  fold c in Hp; rewrite (S_INR n) in Hp.
  assert (Hout : CartPole.BoxPosition e' > 1) by lra.
  destruct (CartPole_stepOutcome_cases e') as (C1 & _); cbn zeta in C1.
  rewrite (C1 (or_introl Hout)), Hs' in *.
  exists (S n), rs, e', d; repeat split; assumption.
Qed.

Lemma CartPole_push_right_terminates_witness :
  let e := fst (CartPole.Reset (CartPole.NewCartPoleEnv CartPole.DefaultCartPoleSettings)
                  (1 / 4) (3 / 4)) in
  exists n rs e' d,
    CartPole.Run e (repeat [1] n) = Ok (rs ++ [(e', d)]) /\
    CartPole.BoxPosition e' > 1 /\
    Terminated d = true /\
    Reward d = CartPole.OutOfBoundsReward (CartPole.Settings e).
Proof.
  intros e.
  apply (CartPole_push_right_terminates e); cbn; lra.
Defined.

(** ** BallPush: categorical actions, shapes, reset *)

Lemma controlVecOf_axis_X (x : R) : x = 1 \/ x = -1 -> BallPush.controlVecOf x 0 = V x 0.
Proof.
  intros H; rewrite controlVecOf_nonzero by (left; lra).
  rewrite Len_axis_X; unfold Scaled; cbn [X Y].
  destruct H as [-> | ->]; [rewrite Rabs_R1 | rewrite Rabs_left by lra];
    apply Vec_eq; field.
Qed.

Lemma controlVecOf_axis_Y (y : R) : y = 1 \/ y = -1 -> BallPush.controlVecOf 0 y = V 0 y.
Proof.
  intros H; rewrite controlVecOf_nonzero by (right; lra).
  rewrite Len_axis_Y; unfold Scaled; cbn [X Y].
  destruct H as [-> | ->]; [rewrite Rabs_R1 | rewrite Rabs_left by lra];
    apply Vec_eq; field.
Qed.

(** X17: the categorical actions of the ball-push environment are exactly
    the indices below [NumCategoricalActions]; each converts to a
    two-component action that [Step] accepts and that the normalisation
    leaves as it is, so its control force is the action times
    [AgentAcceleration]; every other index panics with "invalid action". *)
Theorem BallPush_categorical_actions (e : BallPush.BallPushEnv) (a : Z) :
  ((0 <= a < BallPush.NumCategoricalActions e)%Z ->
   exists a0 a1,
     BallPush.ConvertCategoricalAction e a = Ok [a0; a1] /\
     validAction 2 [a0; a1] /\
     is_ok (BallPush.Step e [a0; a1]) = true /\
     BallPush.controlVecOf a0 a1 = V a0 a1 /\
     BallPush.agentControlForceOf (BallPush.Settings e) a0 a1
       = Scaled (V a0 a1) (BallPush.AgentAcceleration (BallPush.Settings e))) /\
  (~ (0 <= a < BallPush.NumCategoricalActions e)%Z ->
   BallPush.ConvertCategoricalAction e a = Panic "invalid action").
Proof.
  unfold BallPush.NumCategoricalActions; split.
  - intros H.
    assert (Hv : forall x y, -1 <= x <= 1 -> -1 <= y <= 1 -> validAction 2 [x; y]).
    { intros x y Hx Hy; split; [reflexivity | repeat (constructor; [assumption|]); constructor]. }
    assert (Hall : forall x y,
              -1 <= x <= 1 -> -1 <= y <= 1 ->
              BallPush.controlVecOf x y = V x y ->
              validAction 2 [x; y] /\
              is_ok (BallPush.Step e [x; y]) = true /\
              BallPush.controlVecOf x y = V x y /\
              BallPush.agentControlForceOf (BallPush.Settings e) x y
                = Scaled (V x y) (BallPush.AgentAcceleration (BallPush.Settings e))).
    { intros x y Hx Hy Hc; split; [apply Hv; assumption |].
      split; [apply BallPush_Step_is_ok, Hv; assumption |].
      split; [exact Hc |].
      unfold BallPush.agentControlForceOf; rewrite Hc; reflexivity. }
    assert (Ha : a = 0%Z \/ a = 1%Z \/ a = 2%Z \/ a = 3%Z \/ a = 4%Z) by lia.
    destruct Ha as [-> | [-> | [-> | [-> | ->]]]]; cbn [BallPush.ConvertCategoricalAction];
      eexists; eexists; (split; [reflexivity |]); apply Hall; try lra.
    + apply controlVecOf_axis_X; left; reflexivity.
    + apply controlVecOf_axis_X; right; reflexivity.
    + apply controlVecOf_axis_Y; left; reflexivity.
    + apply controlVecOf_axis_Y; right; reflexivity.
    + apply controlVecOf_zero.
  - intros H.
    destruct a as [|[[p|p|]|[p|[p|p|]|]|]|p]; try reflexivity; exfalso; apply H; lia.
Qed.

Lemma BallPush_categorical_actions_witness :
  let e := BallPush.NewBallPushEnv BallPush.DefaultBallPushSettings
             (74 / 75) 0 (49 / 50) 0 in
  (exists a0 a1,
     BallPush.ConvertCategoricalAction e 3 = Ok [a0; a1] /\
     validAction 2 [a0; a1] /\
     is_ok (BallPush.Step e [a0; a1]) = true /\
     BallPush.controlVecOf a0 a1 = V a0 a1 /\
     BallPush.agentControlForceOf (BallPush.Settings e) a0 a1
       = Scaled (V a0 a1) (BallPush.AgentAcceleration (BallPush.Settings e))) /\
  BallPush.ConvertCategoricalAction e 5 = Panic "invalid action".
Proof.
  intros e; split.
  - apply (proj1 (BallPush_categorical_actions e 3));
      unfold BallPush.NumCategoricalActions; lia.
  - apply (proj2 (BallPush_categorical_actions e 5));
      unfold BallPush.NumCategoricalActions; lia.
Defined.

Lemma BallPush_Step_inv (e e' : BallPush.BallPushEnv) (action : list R) (d : StepData) :
  BallPush.Step e action = Ok (e', d) ->
  exists a0 a1,
    action = [a0; a1] /\ -1 <= a0 <= 1 /\ -1 <= a1 <= 1 /\
    e' = BallPush.envAfter (BallPush.stepPhysics e a0 a1) /\
    d = {| Observation := BallPush.getObservation e';
           Reward := BallPush.stepReward (BallPush.stepPhysics e a0 a1);
           Terminated := false;
           Info := [] |}.
Proof.
  intros H.
  assert (Hok : is_ok (BallPush.Step e action) = true) by (rewrite H; reflexivity).
  apply BallPush_Step_is_ok in Hok; destruct Hok as [Hlen Hr].
  destruct action as [|a0 [|a1 [|b rest]]]; try discriminate Hlen.
  pose proof (Forall_inv Hr) as H0; pose proof (Forall_inv (Forall_inv_tail Hr)) as H1.
  cbn beta in H0, H1.
  rewrite (BallPush_Step_valid e a0 a1 H0 H1) in H; cbn zeta in H.
  inversion H; subst.
  exists a0, a1; repeat split; lra.
Qed.

(** What every stage of [Step] keeps of the two particles and of the
    environment, and what the integration leaves in the accumulators. *)
Lemma BallPush_stepPhysics_frame (e : BallPush.BallPushEnv) (a0 a1 : R) :
  let e' := BallPush.envAfter (BallPush.stepPhysics e a0 a1) in
  BallPush.Settings e' = BallPush.Settings e /\
  mass (BallPush.Agent e') = mass (BallPush.Agent e) /\
  mass (BallPush.Ball e') = mass (BallPush.Ball e) /\
  dt (BallPush.Agent e') = dt (BallPush.Agent e) /\
  dt (BallPush.Ball e') = dt (BallPush.Ball e) /\
  currentForce (BallPush.Agent e') = ZV /\
  currentImpulse (BallPush.Agent e') = ZV /\
  currentForce (BallPush.Ball e') = ZV /\
  currentImpulse (BallPush.Ball e') = ZV.
Proof.
  cbn zeta; rewrite stepPhysics_unfold; cbn zeta; cbn [BallPush.envAfter].
  rewrite beforeIntegrate_unfold; cbn zeta; cbn [fst].
  unfold BallPush.checkCentered, BallPush.containBall, BallPush.resolveCollision,
    BallPush.containAgent, BallPush.applyForces; cbn zeta.
  repeat match goal with
         | |- context [if ?c then _ else _] => destruct c; cbn
         end;
    repeat split.
Qed.

(** X18: the ball-push shapes never change and the episode never ends by
    itself: [ObservationLength] is 8 and [ActionLength] is 2 in every
    state, and every [Step] that returns reports [terminated = false], an
    observation of eight entries, an empty debug mapping, and leaves the
    settings as they were. *)
Theorem BallPush_shapes :
  (forall e, BallPush.ObservationLength e = 8%Z /\ BallPush.ActionLength e = 2%Z) /\
  (forall e action e' d,
     BallPush.Step e action = Ok (e', d) ->
     Terminated d = false /\
     List.length (Observation d) = 8%nat /\
     Info d = [] /\
     BallPush.Settings e' = BallPush.Settings e) /\
  (forall e r1 a1 r2 a2,
     let r := BallPush.Reset e r1 a1 r2 a2 in
     List.length (ResetObservation (snd r)) = 8%nat /\
     ResetInfo (snd r) = [] /\
     BallPush.Settings (fst r) = BallPush.Settings e).
Proof.
  split; [intros e; split; reflexivity |].
  split.
  - intros e action e' d H.
    destruct (BallPush_Step_inv _ _ _ _ H) as (a0 & a1 & _ & _ & _ & -> & ->).
    destruct (BallPush_stepPhysics_frame e a0 a1) as (Hs & _).
    repeat split; exact Hs.
  - intros; repeat split.
Qed.

Lemma BallPush_shapes_witness :
  let e := BallPush.NewBallPushEnv BallPush.DefaultBallPushSettings
             (74 / 75) 0 (49 / 50) 0 in
  let l := BallPush.stepPhysics e 0 1 in
  let d := {| Observation := BallPush.getObservation (BallPush.envAfter l);
              Reward := BallPush.stepReward l;
              Terminated := false;
              Info := [] |} in
  Terminated d = false /\
  List.length (Observation d) = 8%nat /\
  Info d = [] /\
  BallPush.Settings (BallPush.envAfter l) = BallPush.Settings e.
Proof.
  intros e l d.
  apply (proj1 (proj2 BallPush_shapes) e [0; 1] (BallPush.envAfter l) d).
  apply BallPush_Step_valid; lra.
Defined.

Lemma Len_Rotated (u : Vec) (angle : R) : Len (Rotated u angle) = Len u.
Proof.
  unfold Len, Rotated; cbn [X Y]; f_equal.
  pose proof (sin2_cos2 angle) as H; unfold Rsqr in H.
  replace ((X u * cos angle - Y u * sin angle) * (X u * cos angle - Y u * sin angle)
           + (X u * sin angle + Y u * cos angle) * (X u * sin angle + Y u * cos angle))
    with ((X u * X u + Y u * Y u) * (sin angle * sin angle + cos angle * cos angle))
    by ring.
  rewrite H; ring.
Qed.

(** X19: in exact arithmetic, [Reset] with radius draws of [[0, 1)] and a
    non-negative boundary radius puts each particle at the drawn fraction
    of three quarters of the boundary radius from the center, in whatever
    direction, with [previousPosition] equal to the new
    position and both flags lowered.  It leaves the accumulators, mass and
    time step alone, and does not refresh the cached velocity: [Velocity()]
    of both particles still reads as before the reset. *)
Theorem BallPush_Reset_placement (e : BallPush.BallPushEnv) (r1 a1 r2 a2 : R) :
  0 <= r1 < 1 -> 0 <= r2 < 1 ->
  let s := BallPush.Settings e in
  0 <= BallPush.BoundaryRadius s ->
  let e' := fst (BallPush.Reset e r1 a1 r2 a2) in
  Len (Position (BallPush.Agent e')) = r1 * BallPush.BoundaryRadius s * 0.75 /\
  Len (Position (BallPush.Ball e')) = r2 * BallPush.BoundaryRadius s * 0.75 /\
  Len (Position (BallPush.Agent e')) <= 0.75 * BallPush.BoundaryRadius s /\
  Len (Position (BallPush.Ball e')) <= 0.75 * BallPush.BoundaryRadius s /\
  previousPosition (BallPush.Agent e') = currentPosition (BallPush.Agent e') /\
  previousPosition (BallPush.Ball e') = currentPosition (BallPush.Ball e') /\
  BallPush.HasTouchedBall e' = false /\
  BallPush.HasCenteredBall e' = false /\
  Velocity (BallPush.Agent e') = Velocity (BallPush.Agent e) /\
  Velocity (BallPush.Ball e') = Velocity (BallPush.Ball e) /\
  currentForce (BallPush.Agent e') = currentForce (BallPush.Agent e) /\
  currentForce (BallPush.Ball e') = currentForce (BallPush.Ball e).
Proof.
  intros H1 H2 s HB e'; unfold e'.
  cbn [BallPush.Reset fst BallPush.Agent BallPush.Ball BallPush.HasTouchedBall
       BallPush.HasCenteredBall SetVelocity SlideToPosition Position Velocity
       currentPosition previousPosition recentVelocity currentForce]; fold s.
  assert (HL : forall r a, 0 <= r < 1 ->
            Len (Rotated (V 0 (r * BallPush.BoundaryRadius s * 0.75)) (a * 2 * PI))
            = r * BallPush.BoundaryRadius s * 0.75).
  { intros r a Hr; rewrite Len_Rotated, Len_on_Y; [reflexivity | reflexivity |].
    assert (0 <= r * BallPush.BoundaryRadius s) by (apply Rmult_le_pos; lra); lra. }
  assert (Hrest : forall u h, Sub u (Scaled ZV h) = u).
  { intros [x y] h; vsimpl; apply Vec_eq; ring. }
  rewrite !HL, !Hrest by assumption.
  repeat split; nra.
Qed.

Lemma BallPush_Reset_placement_witness :
  let e := BallPush.NewBallPushEnv BallPush.DefaultBallPushSettings
             (74 / 75) 0 (49 / 50) 0 in
  let s := BallPush.Settings e in
  let e' := fst (BallPush.Reset e (1 / 2) (1 / 3) (1 / 4) (1 / 5)) in
  Len (Position (BallPush.Agent e')) = 1 / 2 * BallPush.BoundaryRadius s * 0.75 /\
  Len (Position (BallPush.Ball e')) = 1 / 4 * BallPush.BoundaryRadius s * 0.75 /\
  Len (Position (BallPush.Agent e')) <= 0.75 * BallPush.BoundaryRadius s /\
  Len (Position (BallPush.Ball e')) <= 0.75 * BallPush.BoundaryRadius s /\
  previousPosition (BallPush.Agent e') = currentPosition (BallPush.Agent e') /\
  previousPosition (BallPush.Ball e') = currentPosition (BallPush.Ball e') /\
  BallPush.HasTouchedBall e' = false /\
  BallPush.HasCenteredBall e' = false /\
  Velocity (BallPush.Agent e') = Velocity (BallPush.Agent e) /\
  Velocity (BallPush.Ball e') = Velocity (BallPush.Ball e) /\
  currentForce (BallPush.Agent e') = currentForce (BallPush.Agent e) /\
  currentForce (BallPush.Ball e') = currentForce (BallPush.Ball e).
Proof.
  intros e.
  apply (BallPush_Reset_placement e (1 / 2) (1 / 3) (1 / 4) (1 / 5)); cbn; lra.
Defined.

(** ** BallPush: collision, forces, invariants *)

(** X20: resolving an overlap of two particles with distinct centers moves
    them apart along the line through the centers, by the same amount each,
    until they touch: afterwards the centers are exactly
    [AgentRadius + BallRadius] apart, their midpoint is where it was, and
    the touched flag is up (exact arithmetic). *)
Theorem resolveCollision_separates (e : BallPush.BallPushEnv) :
  Position (BallPush.Agent e) <> Position (BallPush.Ball e) ->
  BallPush.ballOverlapOf e > 0 ->
  let s := BallPush.Settings e in
  let e' := fst (BallPush.resolveCollision e) in
  Len (Sub (Position (BallPush.Agent e')) (Position (BallPush.Ball e')))
    = BallPush.AgentRadius s + BallPush.BallRadius s /\
  BallPush.ballOverlapOf e' = 0 /\
  Add (Position (BallPush.Agent e')) (Position (BallPush.Ball e'))
    = Add (Position (BallPush.Agent e)) (Position (BallPush.Ball e)) /\
  BallPush.HasTouchedBall e' = true /\
  snd (BallPush.resolveCollision e) = negb (BallPush.HasTouchedBall e).
Proof.
  intros Hne Hov s e'.
  set (A := Position (BallPush.Agent e)) in *.
  set (B := Position (BallPush.Ball e)) in *.
  assert (Hnz : X (Sub A B) <> 0 \/ Y (Sub A B) <> 0).
  { destruct (Req_dec_T (X A) (X B)) as [EX|NX].
    - destruct (Req_dec_T (Y A) (Y B)) as [EY|NY].
      + exfalso; apply Hne; destruct A, B; cbn in EX, EY; subst; reflexivity.
      + right; cbn; lra.
    - left; cbn; lra. }
  pose proof (Len_pos _ Hnz) as HL.
  set (L := Len (Sub A B)) in *.
  set (Rsum := BallPush.AgentRadius s + BallPush.BallRadius s).
  assert (Ho : BallPush.ballOverlapOf e = Rsum - L) by reflexivity.
  assert (HRpos : 0 < Rsum) by lra.
  assert (He' : Position (BallPush.Agent e')
                = Add A (Scaled (Unit (Sub A B)) ((Rsum - L) / 2)) /\
                Position (BallPush.Ball e')
                = Sub B (Scaled (Unit (Sub A B)) ((Rsum - L) / 2)) /\
                BallPush.HasTouchedBall e' = true /\
                BallPush.Settings e' = s /\
                snd (BallPush.resolveCollision e) = negb (BallPush.HasTouchedBall e)).
  { unfold e', BallPush.resolveCollision; cbn zeta.
    apply Rgtb_true in Hov; rewrite Hov; rewrite Ho.
    cbn [fst snd BallPush.Agent BallPush.Ball BallPush.HasTouchedBall BallPush.Settings
         Position SlideToPosition currentPosition].
    destruct (BallPush.HasTouchedBall e); repeat split. }
  destruct He' as (HA & HB & HT & HS & HJ).
  assert (Hd : Sub (Position (BallPush.Agent e')) (Position (BallPush.Ball e'))
               = Scaled (Sub A B) (Rsum / L)).
  { rewrite HA, HB, (Unit_nonzero _ Hnz); fold L.
    destruct A as [ax ay], B as [bx by']; vsimpl; apply Vec_eq; field; lra. }
  assert (Hlen : Len (Sub (Position (BallPush.Agent e')) (Position (BallPush.Ball e')))
                 = Rsum).
  { rewrite Hd, Len_Scaled; fold L.
    rewrite Rabs_pos_eq; [field; lra |].
    apply Rlt_le, Rdiv_lt_0_compat; assumption. }
  split; [exact Hlen |].
  split; [unfold BallPush.ballOverlapOf; rewrite HS, Hlen; unfold Rsum; ring |].
  split; [| split; assumption].
  rewrite HA, HB.
  destruct A as [ax ay], B as [bx by'], (Unit (Sub {| X := ax; Y := ay |}
                                                {| X := bx; Y := by' |})) as [ux uy].
  vsimpl; apply Vec_eq; ring.
Qed.

Lemma resolveCollision_separates_witness :
  let e := onYAxis 37 37 0 0 (147 / 4) (147 / 4) 0 0 false in
  let s := BallPush.Settings e in
  let e' := fst (BallPush.resolveCollision e) in
  Len (Sub (Position (BallPush.Agent e')) (Position (BallPush.Ball e')))
    = BallPush.AgentRadius s + BallPush.BallRadius s /\
  BallPush.ballOverlapOf e' = 0 /\
  Add (Position (BallPush.Agent e')) (Position (BallPush.Ball e'))
    = Add (Position (BallPush.Agent e)) (Position (BallPush.Ball e)) /\
  BallPush.HasTouchedBall e' = true /\
  snd (BallPush.resolveCollision e) = negb (BallPush.HasTouchedBall e).
Proof.
  intros e.
  apply (resolveCollision_separates e).
  - intros H.
    assert (H' : Y (Position (BallPush.Agent e)) = Y (Position (BallPush.Ball e)))
      by (rewrite H; reflexivity).
    cbn in H'; lra.
  - unfold BallPush.ballOverlapOf; cbn; unfold Sub; cbn [X Y].
    rewrite Len_on_Y; lra.
Defined.

(** X21: in every state a driver can reach (construction, then [Reset] and
    [Step] calls in any order) the settings are those given at
    construction, both particles have mass 1 and the time step
    [DeltaTime], and nothing is left in their force and impulse
    accumulators. *)
Theorem BallPush_reachable_invariant (s : BallPush.BallPushSettings)
  (e : BallPush.BallPushEnv) :
  BallPush.Reachable s e ->
  BallPush.Settings e = s /\
  mass (BallPush.Agent e) = 1 /\
  mass (BallPush.Ball e) = 1 /\
  dt (BallPush.Agent e) = BallPush.DeltaTime s /\
  dt (BallPush.Ball e) = BallPush.DeltaTime s /\
  currentForce (BallPush.Agent e) = ZV /\
  currentImpulse (BallPush.Agent e) = ZV /\
  currentForce (BallPush.Ball e) = ZV /\
  currentImpulse (BallPush.Ball e) = ZV.
Proof.
  induction 1 as [r1 a1 r2 a2 _ _ _ _
                 | e r1 a1 r2 a2 _ IH _ _ _ _
                 | e e' action d _ IH HStep].
  - cbn; repeat split.
  - destruct IH as (Hs & Hma & Hmb & Hda & Hdb & Hfa & Hia & Hfb & Hib).
    cbn; repeat split; assumption.
  - destruct IH as (Hs & Hma & Hmb & Hda & Hdb & _).
    destruct (BallPush_Step_inv _ _ _ _ HStep) as (a0 & a1 & _ & _ & _ & -> & _).
    destruct (BallPush_stepPhysics_frame e a0 a1)
      as (Ks & Kma & Kmb & Kda & Kdb & Kfa & Kia & Kfb & Kib).
    repeat split; congruence.
Qed.

Lemma BallPush_reachable_invariant_witness :
  let s := BallPush.DefaultBallPushSettings in
  let e := BallPush.NewBallPushEnv s (74 / 75) 0 (49 / 50) 0 in
  BallPush.Settings e = s /\
  mass (BallPush.Agent e) = 1 /\
  mass (BallPush.Ball e) = 1 /\
  dt (BallPush.Agent e) = BallPush.DeltaTime s /\
  dt (BallPush.Ball e) = BallPush.DeltaTime s /\
  currentForce (BallPush.Agent e) = ZV /\
  currentImpulse (BallPush.Agent e) = ZV /\
  currentForce (BallPush.Ball e) = ZV /\
  currentImpulse (BallPush.Ball e) = ZV.
Proof.
  intros s e.
  apply (BallPush_reachable_invariant s e).
  apply BallPush.ReachNew; lra.
Defined.

(** X22: in exact arithmetic, for a non-zero [AgentDrag], [AgentMaxSpeed]
    is the speed at which drag cancels the control force: when the agent's
    cached velocity is the control vector times
    [AgentAcceleration / AgentDrag], a step accumulates no net force on the
    agent. *)
Theorem drag_balances_control_at_max_speed (e : BallPush.BallPushEnv) (a0 a1 : R) :
  let s := BallPush.Settings e in
  BallPush.AgentDrag s <> 0 ->
  Velocity (BallPush.Agent e)
    = Scaled (BallPush.controlVecOf a0 a1) (BallPush.AgentMaxSpeed s) ->
  Sub (BallPush.agentControlForceOf s a0 a1)
      (Scaled (Velocity (BallPush.Agent e)) (BallPush.AgentDrag s)) = ZV /\
  currentForce (BallPush.Agent (BallPush.applyForces e a0 a1))
    = currentForce (BallPush.Agent e).
Proof.
  intros s Hd Hv.
  assert (H0 : Sub (BallPush.agentControlForceOf s a0 a1)
                   (Scaled (Velocity (BallPush.Agent e)) (BallPush.AgentDrag s)) = ZV).
  { rewrite Hv; unfold BallPush.agentControlForceOf, BallPush.AgentMaxSpeed.
    destruct (BallPush.controlVecOf a0 a1) as [cx cy]; vsimpl.
    apply Vec_eq; field; exact Hd. }
  split; [exact H0 |].
  cbn [BallPush.applyForces BallPush.Agent ApplyForce currentForce]; fold s.
  rewrite H0; destruct (currentForce (BallPush.Agent e)) as [fx fy]; vsimpl.
  apply Vec_eq; ring.
Qed.

Lemma drag_balances_control_at_max_speed_witness :
  let e := onYAxis 10 10 (40 / 3) 0 0 0 0 0 true in
  let s := BallPush.Settings e in
  Sub (BallPush.agentControlForceOf s 0 1)
      (Scaled (Velocity (BallPush.Agent e)) (BallPush.AgentDrag s)) = ZV /\
  currentForce (BallPush.Agent (BallPush.applyForces e 0 1))
    = currentForce (BallPush.Agent e).
Proof.
  intros e.
  apply (drag_balances_control_at_max_speed e 0 1).
  - cbn; lra.
  - rewrite controlVecOf_axis_Y by (left; reflexivity).
    cbn; vsimpl; unfold BallPush.AgentMaxSpeed; cbn; apply Vec_eq; lra.
Defined.

(** The stages before the integration read positions, flags and settings
    only: they commute with replacing the force accumulated on the agent. *)
Lemma stages_setAgentForce (e : BallPush.BallPushEnv) (f : Vec) :
  BallPush.containAgent (setAgentForce e f) = setAgentForce (BallPush.containAgent e) f /\
  BallPush.resolveCollision (setAgentForce e f)
    = (setAgentForce (fst (BallPush.resolveCollision e)) f,
       snd (BallPush.resolveCollision e)) /\
  BallPush.containBall (setAgentForce e f) = setAgentForce (BallPush.containBall e) f /\
  BallPush.checkCentered (setAgentForce e f)
    = (setAgentForce (fst (BallPush.checkCentered e)) f,
       snd (BallPush.checkCentered e)).
Proof.
  unfold BallPush.containAgent, BallPush.resolveCollision, BallPush.ballOverlapOf,
    BallPush.containBall, BallPush.checkCentered, BallPush.BallInCenter; cbn zeta.
  cbn [setAgentForce BallPush.Agent BallPush.Ball BallPush.Settings
       BallPush.HasTouchedBall BallPush.HasCenteredBall Position currentPosition].
  repeat split.
  - destruct (Rgtb _ 0); reflexivity.
  - destruct (Rgtb _ 0); reflexivity.
  - destruct (Rgtb _ 0); reflexivity.
  - destruct (_ && _); reflexivity.
Qed.

Lemma beforeIntegrate_setAgentForce (e : BallPush.BallPushEnv) (a0 a1 b0 b1 : R) :
  exists f,
    BallPush.beforeIntegrate e a0 a1 =
    (setAgentForce (fst (fst (BallPush.beforeIntegrate e b0 b1))) f,
     snd (fst (BallPush.beforeIntegrate e b0 b1)),
     snd (BallPush.beforeIntegrate e b0 b1)).
Proof.
  exists (currentForce (BallPush.Agent (BallPush.applyForces e a0 a1))).
  set (f := currentForce (BallPush.Agent (BallPush.applyForces e a0 a1))).
  assert (H0 : BallPush.applyForces e a0 a1
               = setAgentForce (BallPush.applyForces e b0 b1) f) by reflexivity.
  rewrite !beforeIntegrate_unfold; cbn zeta; rewrite H0.
  set (x := BallPush.applyForces e b0 b1).
  destruct (stages_setAgentForce x f) as (-> & _).
  destruct (stages_setAgentForce (BallPush.containAgent x) f) as (_ & -> & _).
  cbn [fst snd].
  destruct (stages_setAgentForce (fst (BallPush.resolveCollision (BallPush.containAgent x))) f)
    as (_ & _ & -> & _).
  destruct (stages_setAgentForce
              (BallPush.containBall
                 (fst (BallPush.resolveCollision (BallPush.containAgent x)))) f)
    as (_ & _ & _ & ->).
  reflexivity.
Qed.

(** X23: the action of a step reaches the agent's integration only.  The
    ball after the step, both flags and both bonus locals, and the position
    the agent is integrated from are the same whatever the action. *)
Theorem action_moves_only_the_agent (e : BallPush.BallPushEnv) (a0 a1 b0 b1 : R) :
  let la := BallPush.stepPhysics e a0 a1 in
  let lb := BallPush.stepPhysics e b0 b1 in
  BallPush.Ball (BallPush.envAfter la) = BallPush.Ball (BallPush.envAfter lb) /\
  previousPosition (BallPush.Agent (BallPush.envAfter la))
    = previousPosition (BallPush.Agent (BallPush.envAfter lb)) /\
  BallPush.justTouchedBall la = BallPush.justTouchedBall lb /\
  BallPush.justCenteredBall la = BallPush.justCenteredBall lb /\
  BallPush.HasTouchedBall (BallPush.envAfter la)
    = BallPush.HasTouchedBall (BallPush.envAfter lb) /\
  BallPush.HasCenteredBall (BallPush.envAfter la)
    = BallPush.HasCenteredBall (BallPush.envAfter lb).
Proof.
  cbn zeta; rewrite !stepPhysics_unfold; cbn zeta.
  cbn [BallPush.envAfter BallPush.justTouchedBall BallPush.justCenteredBall].
  destruct (beforeIntegrate_setAgentForce e a0 a1 b0 b1) as (f & ->).
  destruct (BallPush.beforeIntegrate e b0 b1) as [[pre t] c].
  cbn; repeat split.
Qed.

(** X24: in exact arithmetic the radial clamps are idempotent, and they
    touch only their own particle: with radii no larger than the boundary
    radius, clamping a second time changes nothing, [containAgent] leaves
    the ball alone and [containBall] the agent. *)
Theorem containment_clamps_idempotent (e : BallPush.BallPushEnv) :
  let s := BallPush.Settings e in
  BallPush.AgentRadius s <= BallPush.BoundaryRadius s ->
  BallPush.BallRadius s <= BallPush.BoundaryRadius s ->
  BallPush.containAgent (BallPush.containAgent e) = BallPush.containAgent e /\
  BallPush.containBall (BallPush.containBall e) = BallPush.containBall e /\
  BallPush.Ball (BallPush.containAgent e) = BallPush.Ball e /\
  BallPush.Agent (BallPush.containBall e) = BallPush.Agent e.
Proof.
  intros s HA HB.
  destruct (containAgent_frame e) as (FB & FS & _).
  destruct (containBall_frame e) as (FA & FS' & _).
  pose proof (containAgent_bound e HA) as BA.
  pose proof (containBall_bound e HB) as BB.
  fold s in BA, BB.
  split; [apply containAgent_noop; rewrite FS; fold s; lra |].
  split; [apply containBall_noop; rewrite FS'; fold s; lra |].
  split; assumption.
Qed.

Lemma containment_clamps_idempotent_witness :
  let e := onYAxis 60 60 0 0 (- 70) (- 70) 0 0 false in
  BallPush.containAgent (BallPush.containAgent e) = BallPush.containAgent e /\
  BallPush.containBall (BallPush.containBall e) = BallPush.containBall e /\
  BallPush.Ball (BallPush.containAgent e) = BallPush.Ball e /\
  BallPush.Agent (BallPush.containBall e) = BallPush.Agent e.
Proof.
  intros e.
  apply (containment_clamps_idempotent e); cbn; lra.
Defined.

(** ** Walker: shapes and unsupported calls *)

(** X25: whatever the engine, the walker's observation has ten entries,
    the last two being the sine and the cosine of the body angle the engine
    reports, each within [[-1, 1]] (in exact arithmetic their squares sum
    to 1); the observation [Step] returns is that of the world after the
    step; [Step] can report [terminated] only when [StopOnFall] is set and
    leaves the settings and joint limits as they were; the categorical
    interface panics with "unimplemented" on every call. *)
Theorem Walker_shapes (E : Walker.Engine) (e : Walker.WalkerEnv E) :
  Walker.ObservationLength e = 10%Z /\
  Walker.ActionLength e = 4%Z /\
  (let bodyAngle := Walker.HeadAngle E (Walker.world e) in
   nth_error (Walker.getObservation e) 8 = Some (sin bodyAngle) /\
   nth_error (Walker.getObservation e) 9 = Some (cos bodyAngle) /\
   -1 <= sin bodyAngle <= 1 /\ -1 <= cos bodyAngle <= 1 /\
   sin bodyAngle * sin bodyAngle + cos bodyAngle * cos bodyAngle = 1) /\
  (forall action e' d,
     Walker.Step e action = Ok (e', d) ->
     Observation d = Walker.getObservation e' /\
     List.length (Observation d) = 10%nat /\
     Info d = [] /\
     (Terminated d = true -> Walker.StopOnFall (Walker.settings e) = true) /\
     Walker.settings e' = Walker.settings e /\
     Walker.MaxJointVelocity e' = Walker.MaxJointVelocity e /\
     Walker.MaxJointAngle e' = Walker.MaxJointAngle e) /\
  (forall a, Walker.ConvertCategoricalAction e a = Panic "unimplemented") /\
  Walker.NumCategoricalActions e = Panic "unimplemented".
Proof.
  split; [reflexivity |]. split; [reflexivity |].
  split.
  { cbn zeta.
    split; [reflexivity |]. split; [reflexivity |].
    split; [apply SIN_bound |]. split; [apply COS_bound |].
    pose proof (sin2_cos2 (Walker.HeadAngle E (Walker.world e))) as H.
    unfold Rsqr in H; exact H. }
  split; [| split; reflexivity].
  intros action e' d H; unfold Walker.Step in H.
  destruct action as [|a0 [|a1 [|a2 [|a3 rest]]]]; try discriminate H.
  cbn [index nth_error bind] in H; inversion H; subst; clear H.
  cbn [Observation Info Terminated].
  repeat split.
  intros Ht; apply andb_true_iff in Ht; destruct Ht as [_ Ht]; exact Ht.
Qed.

(** ** More on validation, observations and rest *)

(** X26: [validateAction] checks the length first: an action of the wrong
    length panics with the length message whatever its components; an
    action of the right length panics with the range message exactly when
    some component is below -1 or above 1, and returns otherwise. *)
Theorem validateAction_outcomes (action : list R) (n : nat) :
  (List.length action <> n ->
   validateAction action (Z.of_nat n) = Panic "Invalid action: length mismatch") /\
  (List.length action = n ->
   Exists (fun v => v < -1 \/ v > 1) action ->
   validateAction action (Z.of_nat n) = Panic "Invalid action: out of range -1 to 1") /\
  (List.length action = n ->
   Forall (fun v => -1 <= v <= 1) action ->
   validateAction action (Z.of_nat n) = Ok tt).
Proof.
  unfold validateAction; split; [|split].
  - intros H.
    destruct (Z.eqb_spec (Z.of_nat (List.length action)) (Z.of_nat n)) as [E|E];
      [lia | reflexivity].
  - intros H Hex.
    destruct (Z.eqb_spec (Z.of_nat (List.length action)) (Z.of_nat n)) as [E|E];
      [cbn [negb] | lia].
    destruct (validateRange_panic action) as [Hok|Hp]; [|exact Hp].
    apply validateRange_ok in Hok.
    apply Exists_exists in Hex; destruct Hex as (v & Hin & Hv).
    rewrite Forall_forall in Hok; specialize (Hok v Hin); lra.
  - intros H Hall.
    destruct (Z.eqb_spec (Z.of_nat (List.length action)) (Z.of_nat n)) as [E|E];
      [cbn [negb] | lia].
    apply validateRange_ok, Hall.
Qed.

Lemma validateAction_outcomes_witness :
  validateAction [5; 0; 0] (Z.of_nat 2) = Panic "Invalid action: length mismatch" /\
  validateAction [0; 5] (Z.of_nat 2) = Panic "Invalid action: out of range -1 to 1" /\
  validateAction [0; 1] (Z.of_nat 2) = Ok tt.
Proof.
  split; [|split].
  - apply (proj1 (validateAction_outcomes [5; 0; 0] 2)); cbn; lia.
  - apply (proj1 (proj2 (validateAction_outcomes [0; 5] 2))); [reflexivity |].
    apply Exists_cons_tl, Exists_cons_hd; lra.
  - apply (proj2 (proj2 (validateAction_outcomes [0; 1] 2))); [reflexivity |].
    repeat (constructor; [lra |]); constructor.
Defined.

(** X27: on a step that does not terminate the clamp of the observation
    does nothing: with positive maxima and a fail angle of at most 180, the
    observation is exactly (position, velocity / MaxVelocity, angle / 180,
    angular velocity / MaxRotationalVelocity) of the state after the
    step. *)
Theorem CartPole_observation_unclamped
  (e e' : CartPole.CartPoleEnv) (action : list R) (d : StepData) :
  CartPole.Step e action = Ok (e', d) ->
  let s := CartPole.Settings e in
  0 < CartPole.MaxVelocity s ->
  0 < CartPole.MaxRotationalVelocity s ->
  CartPole.FailAngle s <= 180 ->
  Terminated d = false ->
  Observation d =
  [ CartPole.BoxPosition e';
    CartPole.BoxVelocity e' / CartPole.MaxVelocity s;
    CartPole.PoleRotation e' / 180;
    CartPole.PoleRotationalVelocity e' / CartPole.MaxRotationalVelocity s ].
Proof.
  intros H s Hv Hr Hf Ht.
  destruct (CartPole_Step_inv _ _ _ _ H) as (a & _ & _ & He' & HO & _ & HT).
  assert (Hs : CartPole.Settings e' = s) by (subst e'; reflexivity).
  rewrite HT in Ht.
  destruct (CartPole_not_terminated_inside e' Ht) as (Hp & Ha); rewrite Hs in Ha.
  destruct (CartPole_stepPhysics_bounded e a (Rlt_le _ _ Hv) (Rlt_le _ _ Hr)) as [Bv Br].
  fold s in Bv, Br; rewrite <- He' in Bv, Br.
  apply Rabs_le_bounds in Bv, Br.
  assert (Hq : forall x m, 0 < m -> - m <= x <= m -> -1 <= x / m <= 1).
  { intros x m Hm Hx; split.
    - apply (Rmult_le_reg_r m); [exact Hm |].
      unfold Rdiv; rewrite Rmult_assoc, Rinv_l by lra; lra.
    - apply (Rmult_le_reg_r m); [exact Hm |].
      unfold Rdiv; rewrite Rmult_assoc, Rinv_l by lra; lra. }
  rewrite HO; unfold CartPole.getObservation; rewrite Hs.
  replace 180.0 with 180 by lra.
  apply clampAll_fixes.
  repeat apply Forall_cons; [ | | | | apply Forall_nil].
  - exact Hp.
  - apply Hq; assumption.
  - apply Hq; lra.
  - apply Hq; assumption.
Qed.

Lemma CartPole_observation_unclamped_witness :
  let e := CartPole.NewCartPoleEnv CartPole.DefaultCartPoleSettings in
  let e' := CartPole.stepPhysics e 0 in
  let d := {| Observation := CartPole.getObservation e';
              Reward := snd (CartPole.stepOutcome e');
              Terminated := fst (CartPole.stepOutcome e');
              Info := [] |} in
  let s := CartPole.Settings e in
  Observation d =
  [ CartPole.BoxPosition e';
    CartPole.BoxVelocity e' / CartPole.MaxVelocity s;
    CartPole.PoleRotation e' / 180;
    CartPole.PoleRotationalVelocity e' / CartPole.MaxRotationalVelocity s ].
Proof.
  intros e e' d s.
  assert (Hpi : 0 < PI) by apply PI_RGT_0.
  assert (Hpi4 : PI <= 4) by apply PI_4.
  assert (He' : e' = {| CartPole.BoxPosition := 0;
                        CartPole.BoxVelocity := 0;
                        CartPole.PoleRotation := 0;
                        CartPole.PoleRotationalVelocity := 0;
                        CartPole.Settings := CartPole.DefaultCartPoleSettings |}).
  { unfold e', CartPole.stepPhysics; cbn; rewrite sin_0, cos_0.
    apply CartPoleEnv_eq; case_cmps; lra. }
  apply (CartPole_observation_unclamped e e' [0] d).
  - apply CartPole_Step_valid; lra.
  - cbn; lra.
  - cbn; lra.
  - cbn; lra.
  - cbn [Terminated d]; rewrite He'.
    destruct (CartPole_stepOutcome_cases
                {| CartPole.BoxPosition := 0;
                   CartPole.BoxVelocity := 0;
                   CartPole.PoleRotation := 0;
                   CartPole.PoleRotationalVelocity := 0;
                   CartPole.Settings := CartPole.DefaultCartPoleSettings |})
      as (_ & _ & C3).
    cbn in C3; rewrite C3 by lra; reflexivity.
Defined.

(** X28: in exact arithmetic, rest is a fixed point of the zero action.
    For particles with non-zero time step and mass and a non-zero boundary
    radius (the divisors of the step and of the reward): when both
    particles are at rest (position pair closed, cached velocity zero,
    nothing accumulated), apart, inside their limits and the ball outside
    the target, a step with the action (0, 0) leaves both where they are,
    raises no flag and returns reward 0. *)
Theorem BallPush_rest_is_fixed (e : BallPush.BallPushEnv) :
  let s := BallPush.Settings e in
  let at_rest (p : VerletParticle) :=
    previousPosition p = currentPosition p /\ recentVelocity p = ZV /\
    currentForce p = ZV /\ currentImpulse p = ZV in
  dt (BallPush.Agent e) <> 0 -> mass (BallPush.Agent e) <> 0 ->
  dt (BallPush.Ball e) <> 0 -> mass (BallPush.Ball e) <> 0 ->
  BallPush.BoundaryRadius s <> 0 ->
  at_rest (BallPush.Agent e) -> at_rest (BallPush.Ball e) ->
  Len (Position (BallPush.Agent e)) + BallPush.AgentRadius s - BallPush.BoundaryRadius s <= 0 ->
  Len (Position (BallPush.Ball e)) + BallPush.BallRadius s - BallPush.BoundaryRadius s <= 0 ->
  BallPush.ballOverlapOf e <= 0 ->
  BallPush.TargetRadius s - BallPush.BallRadius s <= Len (Position (BallPush.Ball e)) ->
  exists e' d,
    BallPush.Step e [0; 0] = Ok (e', d) /\
    Position (BallPush.Agent e') = Position (BallPush.Agent e) /\
    Position (BallPush.Ball e') = Position (BallPush.Ball e) /\
    at_rest (BallPush.Agent e') /\ at_rest (BallPush.Ball e') /\
    BallPush.HasTouchedBall e' = BallPush.HasTouchedBall e /\
    BallPush.HasCenteredBall e' = BallPush.HasCenteredBall e /\
    Reward d = 0.
Proof.
  intros s at_rest _ _ _ _ _
    (HAp & HAv & HAf & HAi) (HBp & HBv & HBf & HBi) HcA HcB Hov Hctr.
  rewrite (BallPush_Step_valid e 0 0) by lra; cbn zeta.
  eexists; eexists; split; [reflexivity |].
  cbn [Reward].
  assert (Hpre : BallPush.beforeIntegrate e 0 0 = (BallPush.applyForces e 0 0, false, false)).
  { rewrite beforeIntegrate_unfold; cbn zeta.
    rewrite containAgent_noop by exact HcA.
    rewrite resolveCollision_noop by exact Hov.
    cbn [fst snd].
    rewrite containBall_noop by exact HcB.
    rewrite checkCentered_noop by exact Hctr.
    reflexivity. }
  rewrite stepPhysics_unfold; cbn zeta; rewrite Hpre; cbn [fst snd].
  unfold BallPush.stepReward, BallPush.moveToCenterTerm, BallPush.moveToBallTerm; cbn zeta.
  cbn [BallPush.envAfter BallPush.justTouchedBall BallPush.justCenteredBall
       BallPush.integrate BallPush.applyForces BallPush.Agent BallPush.Ball
       BallPush.HasTouchedBall BallPush.HasCenteredBall BallPush.Settings].
  unfold BallPush.agentControlForceOf; rewrite controlVecOf_zero.
  destruct (BallPush.Agent e) as [[ax ay] pa ma fa ia va aa ha].
  destruct (BallPush.Ball e) as [[bx by'] pb mb fb ib vb ab hb].
  cbn in HAp, HAv, HAf, HAi, HBp, HBv, HBf, HBi; subst.
  unfold at_rest, StepParticle, ApplyForce, Position, Velocity; vsimpl.
  assert (Z1 : forall m h c : R,
            c * 2 - c + (0 + (0 * BallPush.AgentAcceleration s - 0 * BallPush.AgentDrag s)
                         + 0 * (1 / h)) * (1 / m) * (h * h) = c) by (intros; ring).
  assert (Z2 : forall m h c : R,
            c * 2 - c + (0 + 0 * BallPush.BallDrag s * -1 + 0 * (1 / h)) * (1 / m) * (h * h)
            = c) by (intros; ring).
  fold s; rewrite !Z1, !Z2.
  replace (ax - ax) with 0 by ring; replace (ay - ay) with 0 by ring.
  replace (bx - bx) with 0 by ring; replace (by' - by') with 0 by ring.
  rewrite !Rmult_0_l.
  repeat split.
  destruct (Unit {| X := bx; Y := by' |}) as [ux uy],
           (Unit (Sub {| X := bx; Y := by' |} {| X := ax; Y := ay |})) as [wx wy].
  destruct (BallPush.HasTouchedBall e); cbn [negb X Y]; unfold Rdiv; rdec; ring.
Qed.

Lemma BallPush_rest_is_fixed_witness :
  let e := onYAxis 10 10 0 0 (- 10) (- 10) 0 0 false in
  let at_rest (p : VerletParticle) :=
    previousPosition p = currentPosition p /\ recentVelocity p = ZV /\
    currentForce p = ZV /\ currentImpulse p = ZV in
  exists e' d,
    BallPush.Step e [0; 0] = Ok (e', d) /\
    Position (BallPush.Agent e') = Position (BallPush.Agent e) /\
    Position (BallPush.Ball e') = Position (BallPush.Ball e) /\
    at_rest (BallPush.Agent e') /\ at_rest (BallPush.Ball e') /\
    BallPush.HasTouchedBall e' = BallPush.HasTouchedBall e /\
    BallPush.HasCenteredBall e' = BallPush.HasCenteredBall e /\
    Reward d = 0.
Proof.
  intros e.
  apply (BallPush_rest_is_fixed e); try (cbn; lra).
  - cbn; repeat split.
  - cbn; repeat split.
  - cbn; rewrite Len_on_Y; lra.
  - cbn; rewrite Len_axis_Y, Rabs_left; lra.
  - unfold BallPush.ballOverlapOf; cbn; unfold Sub; cbn [X Y].
    rewrite Len_on_Y; lra.
  - cbn; rewrite Len_axis_Y, Rabs_left; lra.
Defined.
